(** * larnd-display: event segmentation and navigation (src/evd.py)

    A shallow embedding of the part of [evd.py] that cuts a packet log into
    events ([get_event_dividers]) and walks over them ([draw_event],
    [is_cool_event], [find_cool_event], [update_total_events],
    [update_output]), with the properties of the specification stated and
    proved over it.

    Conventions of the embedding.
    - Python and NumPy integers are [Z].  The source file fixes no width
      for the [timestamp] and [dataword] columns, so their arithmetic is
      the arithmetic of [Z].
    - A one-dimensional array is a [list]; an HDF5 table is the list of its
      rows.
    - A call either returns or raises: [outcome A].  Python's [None] as a
      returned value is [None] of an [option].
    - The plotting collaborators ([plot_hits] and friends) are outside the
      file; a drawing function returns what it hands to them. *)

From Stdlib Require Import ZArith List Bool Lia Sorted Permutation.
From Stdlib Require String.
Import ListNotations.
Open Scope Z_scope.

Set Implicit Arguments.

(** ** Exceptions and outcomes *)

Inductive exn : Type :=
| IndexError
| TypeError
| KeyError
| ValueError
| PreventUpdate.

Inductive outcome (A : Type) : Type :=
| Ok (a : A)
| Raise (e : exn).

Arguments Ok {A} a.
Arguments Raise {A} e.

Definition bind {A B : Type} (m : outcome A) (k : A -> outcome B) : outcome B :=
  match m with
  | Ok a => k a
  | Raise e => Raise e
  end.

Notation "x <- m ;; k" := (bind m (fun x => k))
  (at level 61, m at next level, right associativity).

(** What a Dash callback hands back for one output: a new value, or
    [no_update], which leaves the component's property as it was. *)
Inductive dash (A : Type) : Type :=
| no_update
| value (a : A).

Arguments no_update {A}.
Arguments value {A} a.

Definition apply_output {A : Type} (current : A) (r : dash A) : A :=
  match r with
  | no_update => current
  | value v => v
  end.

(** ** The file *)

(** Modelled from the spec: the row types of the [packets] and
    [light_trig] tables.  The HDF5 schema is not part of [evd.py], which
    only names the columns it reads; section 6 of the specification gives
    them as integers. *)
Record packet : Type := mkPacket {
  packet_type : Z;
  timestamp : Z;
  dataword : Z;
  io_group : Z;
  io_channel : Z
}.

Record light_trigger : Type := mkLight {
  ts_sync : Z;
  op_channel : list Z
}.

(** [datalog["packets"]] is always there (the file selector refuses a file
    without it); [light_trig] is [None] when ["light_trig"] is not among
    [datalog.keys()]. *)
Record datalog : Type := mkDatalog {
  packets : list packet;
  light_trig : option (list light_trigger)
}.

Definition EVENT_BUFFER : Z := 2000.
Definition DEFAULT_COOLNESS_THRESHOLD : Z := 20000.

Definition len {A : Type} (l : list A) : Z := Z.of_nat (length l).

(** ** Sequence operations of Python, NumPy and h5py *)

Module np.

(** [a[i]] with an integer [i]: a negative index counts from the end, an
    index outside the array raises [IndexError]. *)
Definition getitem {A : Type} (a : list A) (i : Z) : outcome A :=
  let j := if i <? 0 then i + len a else i in
  if j <? 0 then Raise IndexError
  else match nth_error a (Z.to_nat j) with
       | Some x => Ok x
       | None => Raise IndexError
       end.

(** [a[start:stop]]: negative bounds count from the end, and bounds are
    clipped to the array, so a slice never raises; a start at or beyond
    the stop gives the empty array. *)
Definition clip {A : Type} (a : list A) (i : Z) : Z :=
  if i <? 0 then Z.max (i + len a) 0 else Z.min i (len a).

Definition slice {A : Type} (a : list A) (start stop : Z) : list A :=
  let s := clip a start in
  let e := clip a stop in
  firstn (Z.to_nat (e - s)) (skipn (Z.to_nat s) a).

(** [a[mask]] with a boolean array: the mask must be as long as the
    array. *)
Fixpoint select {A : Type} (mask : list bool) (a : list A) : list A :=
  match mask, a with
  | b :: mask', x :: a' => if b then x :: select mask' a' else select mask' a'
  | _, _ => []
  end.

Definition mask_index {A : Type} (a : list A) (mask : list bool) : outcome (list A) :=
  if (length mask =? length a)%nat then Ok (select mask a) else Raise IndexError.

(** [a[idx]] with an integer array. *)
Fixpoint take {A : Type} (a : list A) (idx : list Z) : outcome (list A) :=
  match idx with
  | [] => Ok []
  | i :: idx' =>
      x <- getitem a i ;;
      r <- take a idx' ;;
      Ok (x :: r)
  end.

(** [np.diff(a)]: [a[k+1] - a[k]]. *)
Fixpoint diff (a : list Z) : list Z :=
  match a with
  | x :: ((y :: _) as t) => (y - x) :: diff t
  | _ => []
  end.

Definition arange (n : nat) : list Z := map Z.of_nat (seq 0 n).

(** [np.nonzero(mask)[0]], which is also [np.indices(shape)[0][mask]]. *)
Fixpoint nonzero_from (k : nat) (mask : list bool) : list Z :=
  match mask with
  | [] => []
  | b :: mask' =>
      if b then Z.of_nat k :: nonzero_from (S k) mask' else nonzero_from (S k) mask'
  end.

Definition nonzero (mask : list bool) : list Z := nonzero_from 0 mask.

Definition any (mask : list bool) : bool := existsb (fun b => b) mask.

(** The position of the first occurrence of [v]. *)
Fixpoint first_index (v : Z) (a : list Z) : nat :=
  match a with
  | [] => 0
  | x :: a' => if x =? v then 0%nat else S (first_index v a')
  end.

(** [np.unique(a)]: the values of [a], sorted, each once. *)
Fixpoint insert_unique (v : Z) (s : list Z) : list Z :=
  match s with
  | [] => [v]
  | x :: s' =>
      if v <? x then v :: s
      else if v =? x then s
      else x :: insert_unique v s'
  end.

Definition unique (a : list Z) : list Z := fold_right insert_unique [] a.

Definition isin (v : Z) (a : list Z) : bool := existsb (Z.eqb v) a.

(** [np.intersect1d(a, b, return_indices=True)]: the sorted, unique values
    found in both arrays, and for each of them the index of its first
    occurrence in [a] and in [b]. *)
Definition intersect1d (a b : list Z) : list Z * list Z * list Z :=
  let common := filter (fun v => isin v b) (unique a) in
  (common,
   map (fun v => Z.of_nat (first_index v a)) common,
   map (fun v => Z.of_nat (first_index v b)) common).

(** [np.argsort(a)]: the indices that sort [a].  The keys sorted in
    [get_event_dividers] are first-occurrence indices of distinct values,
    hence distinct, so the place of equal keys plays no part. *)
Fixpoint insert_key (x : Z * Z) (s : list (Z * Z)) : list (Z * Z) :=
  match s with
  | [] => [x]
  | y :: s' => if fst x <=? fst y then x :: s else y :: insert_key x s'
  end.

Definition argsort (a : list Z) : list Z :=
  map snd (fold_right insert_key [] (combine a (arange (length a)))).

(** [range(start, stop, step)] for a step other than zero. *)
Definition range (start stop step : Z) : list Z :=
  let n := if 0 <? step then (stop - start + step - 1) / step
           else (start - stop - step - 1) / (- step) in
  map (fun k => start + Z.of_nat k * step) (seq 0 (Z.to_nat n)).

End np.

(** ** Segmentation: [get_event_dividers] *)

(** [a, b = x]: unpacking [None] raises [TypeError]. *)
Definition unpack {A : Type} (x : option A) : outcome A :=
  match x with
  | Some p => Ok p
  | None => Raise TypeError
  end.

Definition trigger_mask_of (pk : list packet) : list bool :=
  map (fun p => packet_type p =? 7) pk.

(** The function falls off its end, returning [None], when no packet is a
    trigger. *)
Definition get_event_dividers (d : datalog) : outcome (option (list Z * list Z)) :=
  let pk := packets d in
  let trigger_mask := trigger_mask_of pk in
  if np.any trigger_mask then
    match light_trig d with
    | Some lt =>
        trig <- np.mask_index pk trigger_mask ;;
        let '(ts, il, ic) :=
          np.intersect1d (map ts_sync lt) (map timestamp trig) in
        ic <- np.take (np.nonzero trigger_mask) ic ;;
        let i_sort := np.argsort il in
        il <- np.take il i_sort ;;
        ic <- np.take ic i_sort ;;
        ts <- np.take ts i_sort ;;
        let merge_mask := map (fun x => 200 <? x) (np.diff ts) in
        il <- np.mask_index il (true :: merge_mask) ;;
        ic <- np.mask_index ic (true :: merge_mask) ;;
        let ic := ic ++ [len pk] in
        let il := il ++ [len lt] in
        Ok (Some (ic, il))
    | None =>
        let trigger_packets := np.nonzero trigger_mask in
        ic <- np.mask_index (removelast trigger_packets)
                (map (fun x => negb (x =? 1)) (np.diff trigger_packets)) ;;
        last <- np.getitem trigger_packets (-1) ;;
        let ic := ic ++ [last; len pk] in
        let il := @nil Z in
        Ok (Some (ic, il))
    end
  else Ok None.

(** ** Navigation *)

(** [is_cool_event(packets, threshold)].  The boolean mask is built from
    the very array it selects from, so the selection cannot fail;
    [sum] adds from the left, starting from 0. *)
Definition is_cool_event (pk : list packet) (threshold : option Z) : bool :=
  let threshold :=
    match threshold with
    | None => DEFAULT_COOLNESS_THRESHOLD
    | Some t => t
    end in
  let data_packets := np.select (map (fun p => packet_type p =? 0) pk) pk in
  let total_adc := fold_left Z.add (map dataword data_packets) 0 in
  threshold <? total_adc.

(** The [for maybe_id in range(...)] loop of [find_cool_event], which
    returns from inside its body. *)
Fixpoint scan_cool (event_dividers : list Z) (pk : list packet)
    (threshold : option Z) (ids : list Z) : outcome (dash Z) :=
  match ids with
  | [] => Ok no_update
  | maybe_id :: ids' =>
      start_packet <- np.getitem event_dividers maybe_id ;;
      end_packet <- np.getitem event_dividers (maybe_id + 1) ;;
      if is_cool_event (np.slice pk start_packet end_packet) threshold
      then Ok (value maybe_id)
      else scan_cool event_dividers pk threshold ids'
  end.

(** [find_cool_event(event_id, filename, threshold, direction)].  Once the
    pair is unpacked, [event_dividers is not None] holds. *)
Definition find_cool_event (event_id : Z) (d : datalog) (threshold : option Z)
    (direction : Z) : outcome (dash Z) :=
  r <- get_event_dividers d ;;
  dividers <- unpack r ;;
  let event_dividers := fst dividers in
  if direction =? 0 then Raise ValueError
  else
    let start := event_id + direction in
    let stop := if direction =? -1 then -1 else len event_dividers - 1 in
    scan_cool event_dividers (packets d) threshold (np.range start stop direction).

(** [prev_cool_click] and [next_cool_click] write the result to the
    [input-evid] box, whose current content is [shown]. *)
Definition prev_cool_click (shown event_id : Z) (d : datalog) (threshold : option Z)
    : outcome Z :=
  r <- find_cool_event event_id d threshold (-1) ;;
  Ok (apply_output shown r).

Definition next_cool_click (shown event_id : Z) (d : datalog) (threshold : option Z)
    : outcome Z :=
  r <- find_cool_event event_id d threshold 1 ;;
  Ok (apply_output shown r).

(** What [draw_event] passes to [plot_hits]: the packets of the event,
    the index of its first packet and the time of that packet. *)
Record hits : Type := mkHits {
  event_packets : list packet;
  start_packet : Z;
  last_trigger : Z
}.

(** [draw_event], from its first line to the call of [plot_hits].  The
    track and light overlays that follow leave [event_packets] as it is. *)
Definition draw_event (d : datalog) (event_dividers : list Z) (event_id : Z)
    : outcome hits :=
  let pk := packets d in
  start_packet <- np.getitem event_dividers event_id ;;
  end_packet <- np.getitem event_dividers (event_id + 1) ;;
  first <- np.getitem pk start_packet ;;
  let last_trigger := timestamp first in
  let event_packets := np.slice pk start_packet end_packet in
  let within_buffer :=
    map (fun p => timestamp p - last_trigger <? EVENT_BUFFER) event_packets in
  let event_packets := np.select within_buffer event_packets in
  Ok (mkHits event_packets start_packet last_trigger).

(** The three ways [update_output] ends when it does not raise. *)
Inductive display : Type :=
| Shown (h : hits)
| AlertOnly
| AlertSelectGeometry.

(** [update_output]: [geometry_known] says whether [GEOMETRIES[geometry]]
    finds its key; the [try] catches [IndexError] and [KeyError] only, and
    the call of [get_event_dividers] stands before it. *)
Definition update_output (event_id : Z) (d : datalog) (geometry_known : bool)
    : outcome display :=
  r <- get_event_dividers d ;;
  dividers <- unpack r ;;
  let event_dividers := fst dividers in
  if negb geometry_known then Ok AlertSelectGeometry
  else
    match draw_event d event_dividers event_id with
    | Ok h => Ok (Shown h)
    | Raise IndexError => Ok AlertOnly
    | Raise KeyError => Ok AlertSelectGeometry
    | Raise e => Raise e
    end.

(** [update_total_events]: the number it prints after the slash. *)
Definition update_total_events (modified_timestamp : option Z) (d : datalog)
    : outcome Z :=
  r <- get_event_dividers d ;;
  dividers <- unpack r ;;
  let event_dividers := fst dividers in
  match modified_timestamp with
  | None => Raise PreventUpdate
  | Some _ =>
      Ok (if len event_dividers <? 2 then 0 else len event_dividers - 2)
  end.

(** [update_event_id_click], after [int(input_evid)] has succeeded. *)
Definition update_event_id_click (event_id : Z) (d : datalog) : outcome Z :=
  r <- get_event_dividers d ;;
  dividers <- unpack r ;;
  let event_dividers := fst dividers in
  let event_id :=
    if len event_dividers - 1 <=? event_id then len event_dividers - 2
    else event_id in
  let event_id := if event_id <? 0 then 0 else event_id in
  Ok event_id.

(** * The steps of [get_event_dividers] *)

(** Lines 611 to 621: the matched light triggers, in the order of their
    index in [light_trig], as the three parallel arrays [ts], [il] and
    [ic]. *)
Definition light_matches (d : datalog) (lt : list light_trigger)
    : outcome (list Z * list Z * list Z) :=
  let pk := packets d in
  let trigger_mask := trigger_mask_of pk in
  trig <- np.mask_index pk trigger_mask ;;
  let '(ts, il, ic) :=
    np.intersect1d (map ts_sync lt) (map timestamp trig) in
  ic <- np.take (np.nonzero trigger_mask) ic ;;
  let i_sort := np.argsort il in
  il <- np.take il i_sort ;;
  ic <- np.take ic i_sort ;;
  ts <- np.take ts i_sort ;;
  Ok (ts, il, ic).

(** [np.diff(ts.astype(int)) > 200]. *)
Definition merge_mask_of (ts : list Z) : list bool :=
  map (fun x => 200 <? x) (np.diff ts).

(** Lines 623 to 626, on the arrays of [light_matches]. *)
Definition merge_matches (d : datalog) (lt : list light_trigger)
    (m : list Z * list Z * list Z) : outcome (option (list Z * list Z)) :=
  let '(ts, il, ic) := m in
  il <- np.mask_index il (true :: merge_mask_of ts) ;;
  ic <- np.mask_index ic (true :: merge_mask_of ts) ;;
  Ok (Some (ic ++ [len (packets d)], il ++ [len lt])).

(** [x != 1], the test applied to [np.diff(trigger_packets)]. *)
Definition not_one (x : Z) : bool := negb (x =? 1).

(** The triggers kept by [trigger_packets[:-1][np.diff(trigger_packets) != 1]]
    together with [trigger_packets[-1]]: of every run of adjacent indices,
    the last one. *)
Fixpoint run_ends (tp : list Z) : list Z :=
  match tp with
  | [] => []
  | x :: t =>
      match t with
      | [] => [x]
      | y :: _ => if y - x =? 1 then run_ends t else x :: run_ends t
      end
  end.

(** * Notions of the specification *)

(** The sum of the specification: the [dataword] of every packet of type
    0, added up packet by packet. *)
Fixpoint data_adc_sum (pk : list packet) : Z :=
  match pk with
  | [] => 0
  | p :: pk' =>
      if packet_type p =? 0 then dataword p + data_adc_sum pk' else data_adc_sum pk'
  end.

(** An unset threshold stands for 20000. *)
Definition effective_threshold (threshold : option Z) : Z :=
  match threshold with
  | None => 20000
  | Some t => t
  end.

Definition strictly_increasing (l : list Z) : Prop := StronglySorted Z.lt l.

Definition nondecreasing (l : list Z) : Prop := StronglySorted Z.le l.

(** Is the packet at index [t] a trigger?  False outside the log. *)
Definition trigger_at (pk : list packet) (t : Z) : bool :=
  (0 <=? t) && nth (Z.to_nat t) (trigger_mask_of pk) false.

Definition trigger_count (d : datalog) : nat :=
  length (filter (fun p => packet_type p =? 7) (packets d)).

(** The span of event [i] of a boundary table holds the index [t]. *)
Definition covers (ev : list Z) (i : nat) (t : Z) : Prop :=
  (S i < length ev)%nat /\ nth i ev 0 <= t < nth (S i) ev 0.

(** The raw sub-range of the specification: the packets whose index [i]
    satisfies [s <= i < e], in the order of the log. *)
Definition in_span (s e : Z) (ip : Z * packet) : bool :=
  (s <=? fst ip) && (fst ip <? e).

Definition raw_range (pk : list packet) (s e : Z) : list packet :=
  map snd (filter (in_span s e) (combine (np.arange (length pk)) pk)).

(** The coolness of event [i]: the predicate on the packets of its raw
    sub-range. *)
Definition cool_at (d : datalog) (ev : list Z) (threshold : option Z) (i : Z) : bool :=
  is_cool_event
    (raw_range (packets d) (nth (Z.to_nat i) ev 0) (nth (Z.to_nat (i + 1)) ev 0))
    threshold.

(** The merge on signed differences, as one pass over the matched
    triggers in light-index order: a trigger whose sync timestamp minus
    that of the trigger before it is at most 200, hence also every trigger
    that steps back in time, joins that one's event; any other opens an
    event at its index. *)
Fixpoint boundaries_after (previous : Z) (rest : list (Z * Z)) : list Z :=
  match rest with
  | [] => []
  | (t, i) :: rest' =>
      if t - previous <=? 200 then boundaries_after t rest'
      else i :: boundaries_after t rest'
  end.

Definition merged_boundaries (ts idx : list Z) : list Z :=
  match combine ts idx with
  | [] => []
  | (t0, i0) :: rest => i0 :: boundaries_after t0 rest
  end.

(** The merge in the words of the specification: two adjacent matched
    triggers within 200 ticks of each other share an event, two that are
    201 ticks or more apart, in either direction, do not. *)
Fixpoint boundaries_apart (previous : Z) (rest : list (Z * Z)) : list Z :=
  match rest with
  | [] => []
  | (t, i) :: rest' =>
      if Z.abs (t - previous) <=? 200 then boundaries_apart t rest'
      else i :: boundaries_apart t rest'
  end.

Definition claimed_boundaries (ts idx : list Z) : list Z :=
  match combine ts idx with
  | [] => []
  | (t0, i0) :: rest => i0 :: boundaries_apart t0 rest
  end.

(** * Sample files *)

(** A packet of a given type at a given time, a data packet with its ADC
    word, a light trigger at a given sync time. *)
Definition pkt (ty ts : Z) : packet := mkPacket ty ts 0 0 0.
Definition data (ts adc : Z) : packet := mkPacket 0 ts adc 0 0.
Definition lig (ts : Z) : light_trigger := mkLight ts [].

Definition no_packet : packet := pkt 0 0.

(** Triggers at 0, 2 and 5 in a log of 7 packets: the scenario of the
    specification, scaled down. *)
Definition scenario_log : datalog :=
  mkDatalog [pkt 7 0; pkt 0 1; pkt 7 2; pkt 0 3; pkt 0 4; pkt 7 5; pkt 0 6] None.

(** Data packets only. *)
Definition no_trigger_log : datalog :=
  mkDatalog [data 10 3; data 11 4; data 12 5] None.

(** One trigger, the second packet. *)
Definition single_trigger_log : datalog :=
  mkDatalog [data 10 3; pkt 7 11; data 12 5] None.

(** An event whose packets are at 1000, 1500 and 3500 ticks. *)
Definition buffer_log : datalog :=
  mkDatalog [pkt 7 1000; data 1500 40; data 3500 41; pkt 7 9000; data 9001 42] None.

(** Two adjacent triggers open the log. *)
Definition leading_run_log : datalog :=
  mkDatalog [pkt 7 0; pkt 7 1; pkt 0 2; pkt 0 3; pkt 7 4; pkt 0 5] None.

(** Two adjacent triggers after a first event. *)
Definition second_run_log : datalog :=
  mkDatalog [pkt 7 0; pkt 0 1; pkt 0 2; pkt 7 3; pkt 7 4; pkt 0 5] None.

(** Two matched light triggers, [gap] ticks apart. *)
Definition gap_log (gap : Z) : datalog :=
  mkDatalog [pkt 7 100; data 150 7; pkt 7 (100 + gap); data 350 9]
            (Some [lig 100; lig (100 + gap)]).

(** Three events, the second one with an ADC sum of 30000. *)
Definition cool_log : datalog :=
  mkDatalog [pkt 7 0; data 1 5; pkt 7 10; data 11 30000; pkt 7 20; data 21 6] None.

(** Two matched light triggers, the second 900 ticks before the first. *)
Definition back_in_time_log : datalog :=
  mkDatalog [pkt 7 100; data 150 7; pkt 7 1000; data 1050 9]
            (Some [lig 1000; lig 100]).

(** Packets in time order, light triggers not. *)
Definition unordered_light_log : datalog :=
  mkDatalog [pkt 7 100; pkt 7 1000; pkt 7 5000]
            (Some [lig 5000; lig 100; lig 1000]).

(** * Further parts of the source *)

(** The order in which [np.argsort] leaves its (key, index) pairs. *)
Definition key_le (p q : Z * Z) : Prop := fst p <= fst q.

(** The pairs whose second components [np.argsort a] returns. *)
Definition sorted_pairs (a : list Z) : list (Z * Z) :=
  fold_right np.insert_key [] (combine a (np.arange (length a))).

(** Light triggers none of which shares its time with a trigger packet. *)
Definition unmatched_light_log : datalog :=
  mkDatalog [pkt 7 100; data 150 7; pkt 7 300] (Some [lig 101; lig 299]).

(** The loop bounds of [draw_event] (lines 102 to 104) and of
    [light_waveform] (lines 227 to 229):
    [range(light_dividers[event_id], light_dividers[event_id + 1])]. *)
Definition light_range (light_dividers : list Z) (event_id : Z) : outcome (list Z) :=
  first <- np.getitem light_dividers event_id ;;
  stop <- np.getitem light_dividers (event_id + 1) ;;
  Ok (np.range first stop 1).

(** Lines 80 to 93 of [draw_event], once the two tables are known to be
    in the file: [rows] is the column [track_ids] of [mc_packets_assn],
    one array per packet; the result is the [range] handed to
    [plot_tracks], or [None] when [plot_tracks] is not called. *)
Definition track_range (rows : list (list Z)) (start_packet end_packet : Z)
    (within_buffer : list bool) : outcome (option (list Z)) :=
  selected <- np.mask_index (np.slice rows start_packet end_packet) within_buffer ;;
  let track_ids := skipn 1 (np.unique (concat selected)) in
  if 0 <? len track_ids then
    first <- np.getitem track_ids 0 ;;
    final <- np.getitem track_ids (-1) ;;
    Ok (Some (np.range first final 1))
  else Ok None.

(** What [adc_histogram] asks of [GEOMETRIES[geometry]]: whether the tile
    of an [(io_group, io_channel)] pair is in [tile_map[0][0]] or
    [tile_map[0][1]] (anode 0, else anode 1), and the keys of
    [module_to_io_groups]. *)
Record geometry : Type := mkGeometry {
  first_anode : Z -> Z -> bool;
  module_ids : list Z
}.

(** The [geometry] argument: [None], a name that is no key of
    [GEOMETRIES], or the name of a loaded geometry. *)
Inductive geometry_choice : Type :=
| NoGeometry
| UnknownGeometry
| KnownGeometry (g : geometry).

(** [(event_packets["io_group"] + 1) // 2]. *)
Definition module_of (p : packet) : Z := (io_group p + 1) / 2.

(** [a & b] on two boolean arrays. *)
Definition mask_and (a b : list bool) : list bool :=
  map (fun xy => fst xy && snd xy) (combine a b).

(** One row per active module: the module id and the [x] arrays of its
    two histograms. *)
Definition histogram_row (event_packets : list packet) (anodes : list Z)
    (start_t : Z) (module_id : Z) : Z * list Z * list Z :=
  let query := map (fun p => module_of p =? module_id) event_packets in
  let times := map timestamp event_packets in
  (module_id,
   map (fun t => t - start_t)
       (np.select (mask_and (map (fun a => a =? 0) anodes) query) times),
   map (fun t => t - start_t)
       (np.select (mask_and (map (fun a => a =? 1) anodes) query) times)).

(** [adc_histogram(event_id, filename, geometry)]: the rows of the figure
    it returns, or [no_update]. *)
Definition adc_histogram (event_id : Z) (d : datalog) (choice : geometry_choice)
    : outcome (dash (list (Z * list Z * list Z))) :=
  r <- get_event_dividers d ;;
  dividers <- unpack r ;;
  let event_dividers := fst dividers in
  match choice with
  | NoGeometry => Ok no_update
  | UnknownGeometry =>
      start_packet <- np.getitem event_dividers event_id ;;
      end_packet <- np.getitem event_dividers (event_id + 1) ;;
      Raise KeyError
  | KnownGeometry g =>
      start_packet <- np.getitem event_dividers event_id ;;
      end_packet <- np.getitem event_dividers (event_id + 1) ;;
      let pk := packets d in
      let event_packets := np.slice pk start_packet end_packet in
      let event_packets :=
        np.select (map (fun p => packet_type p =? 0) event_packets) event_packets in
      let anodes :=
        map (fun p => if first_anode g (io_group p) (io_channel p) then 0 else 1)
            event_packets in
      first <- np.getitem pk start_packet ;;
      let start_t := timestamp first in
      let active_modules :=
        filter (fun module_id =>
                  negb (len (np.select
                               (map (fun p => module_of p =? module_id) event_packets)
                               event_packets) =? 0))
               (module_ids g) in
      match active_modules with
      | [] => Ok no_update
      | _ :: _ =>
          Ok (value (map (histogram_row event_packets anodes start_t) active_modules))
      end
  end.

(** A geometry of two modules, channels below 32 on the first anode. *)
Definition two_module_geometry : geometry :=
  mkGeometry (fun io_group io_channel => io_channel <? 32) [0; 1].

(** [@lru_cache(maxsize=64)] on [get_event_dividers(path)]: the entries
    of the cache, the most recently used first.  A result is stored under
    its path, [None] like any other; a call that raises stores nothing. *)
Definition cache : Type := list (String.string * option (list Z * list Z)).

(** [maxsize=64]. *)
Definition maxsize : nat := 64.

Fixpoint cache_get (path : String.string) (c : cache)
    : option (option (list Z * list Z)) :=
  match c with
  | [] => None
  | (k, v) :: c' => if String.eqb k path then Some v else cache_get path c'
  end.

(** The cache without the entry of [path]: a hit moves that entry to the
    front. *)
Definition cache_drop (path : String.string) (c : cache) : cache :=
  filter (fun kv => negb (String.eqb (fst kv) path)) c.

(** A call of the decorated function: [files path] is what
    [h5py.File(path)] and [datalog["packets"]] give, a log or the
    exception of a file that cannot be read. *)
Definition get_event_dividers_cached (files : String.string -> outcome datalog)
    (c : cache) (path : String.string)
    : outcome (option (list Z * list Z)) * cache :=
  match cache_get path c with
  | Some v => (Ok v, (path, v) :: cache_drop path c)
  | None =>
      match (d <- files path ;; get_event_dividers d) with
      | Ok v =>
          (Ok v,
           (path, v) :: (if (length c <? maxsize)%nat then c else removelast c))
      | Raise e => (Raise e, c)
      end
  end.

(** One entry per path, [maxsize] entries at most. *)
Definition cache_ok (c : cache) : Prop :=
  NoDup (map fst c) /\ (length c <= maxsize)%nat.

(** A path for the examples. *)
Definition path_a : String.string := String.EmptyString.

(** * Properties *)

(** ** Indexing *)

Section Indexing.

Variable A : Type.
Implicit Types (a : list A) (i : Z).

Lemma len_nonneg a : 0 <= len a.
Proof. unfold len; lia. Qed.

Lemma getitem_inside a i (dflt : A) :
  0 <= i < len a -> np.getitem a i = Ok (nth (Z.to_nat i) a dflt).
Proof.
  intros H. unfold np.getitem.
  destruct (i <? 0) eqn:E; [apply Z.ltb_lt in E; lia|].
  rewrite E.
  destruct (nth_error a (Z.to_nat i)) as [x|] eqn:N.
  - now rewrite (nth_error_nth _ _ dflt N).
  - apply nth_error_None in N. unfold len in H. lia.
Qed.

Lemma getitem_beyond a i : len a <= i -> np.getitem a i = Raise IndexError.
Proof.
  intros H. pose proof (len_nonneg a). unfold np.getitem.
  destruct (i <? 0) eqn:E; [apply Z.ltb_lt in E; lia|].
  rewrite E.
  destruct (nth_error a (Z.to_nat i)) eqn:N; [|reflexivity].
  assert (Z.to_nat i < length a)%nat by (apply nth_error_Some; congruence).
  unfold len in H. lia.
Qed.

Lemma getitem_before a i : i < - len a -> np.getitem a i = Raise IndexError.
Proof.
  intros H. pose proof (len_nonneg a). unfold np.getitem.
  destruct (i <? 0) eqn:E; [|apply Z.ltb_ge in E; lia].
  destruct (i + len a <? 0) eqn:F; [reflexivity|apply Z.ltb_ge in F; lia].
Qed.

Lemma getitem_from_end a i :
  - len a <= i < 0 -> np.getitem a i = np.getitem a (i + len a).
Proof.
  intros H. unfold np.getitem.
  destruct (i <? 0) eqn:E; [|apply Z.ltb_ge in E; lia].
  destruct (i + len a <? 0) eqn:F; [apply Z.ltb_lt in F; lia|].
  now rewrite F.
Qed.

Lemma getitem_Ok_In a i x : np.getitem a i = Ok x -> In x a.
Proof.
  unfold np.getitem.
  destruct ((if i <? 0 then i + len a else i) <? 0); [discriminate|].
  destruct (nth_error a _) eqn:N; [|discriminate].
  intros [= <-]. eapply nth_error_In; eauto.
Qed.

Lemma select_filter (f : A -> bool) a : np.select (map f a) a = filter f a.
Proof.
  induction a as [|x a IH]; simpl; [reflexivity|].
  now rewrite IH.
Qed.

Lemma select_incl (mask : list bool) a x : In x (np.select mask a) -> In x a.
Proof.
  revert a; induction mask as [|b mask IH]; intros [|y a]; simpl; try tauto.
  destruct b; simpl; intros H; [destruct H as [H|H]|]; auto.
Qed.

Lemma mask_index_Ok a (mask : list bool) :
  length mask = length a -> np.mask_index a mask = Ok (np.select mask a).
Proof.
  intros H. unfold np.mask_index. now rewrite H, Nat.eqb_refl.
Qed.

Lemma mask_index_inv a (mask : list bool) r :
  np.mask_index a mask = Ok r -> length mask = length a /\ r = np.select mask a.
Proof.
  unfold np.mask_index.
  destruct (length mask =? length a)%nat eqn:E; [|discriminate].
  apply Nat.eqb_eq in E. now intros [= <-].
Qed.

Lemma take_length a idx r : np.take a idx = Ok r -> length r = length idx.
Proof.
  revert r; induction idx as [|i idx IH]; simpl; intros r.
  - now intros [= <-].
  - destruct (np.getitem a i); simpl; [|discriminate].
    destruct (np.take a idx); simpl; [|discriminate].
    intros [= <-]. simpl. now rewrite (IH _ eq_refl).
Qed.

Lemma take_incl a idx r x : np.take a idx = Ok r -> In x r -> In x a.
Proof.
  revert r; induction idx as [|i idx IH]; simpl; intros r.
  - intros [= <-] [].
  - destruct (np.getitem a i) eqn:G; simpl; [|discriminate].
    destruct (np.take a idx); simpl; [|discriminate].
    intros [= <-] [<-|H].
    + eapply getitem_Ok_In; eauto.
    + eapply IH; eauto.
Qed.

End Indexing.

(** ** The coolness predicate *)

Lemma fold_left_add_shift (l : list Z) (acc : Z) :
  fold_left Z.add l acc = acc + fold_left Z.add l 0.
Proof.
  revert acc; induction l as [|x l IH]; intros acc; simpl; [lia|].
  rewrite (IH (acc + x)), (IH x). lia.
Qed.

Lemma total_adc_is_data_adc_sum (pk : list packet) :
  fold_left Z.add
    (map dataword (np.select (map (fun p => packet_type p =? 0) pk) pk)) 0
  = data_adc_sum pk.
Proof.
  rewrite select_filter.
  induction pk as [|p pk IH]; simpl; [reflexivity|].
  destruct (packet_type p =? 0); simpl; [|exact IH].
  rewrite fold_left_add_shift, IH. lia.
Qed.

Lemma is_cool_event_ltb (pk : list packet) (threshold : option Z) :
  is_cool_event pk threshold = (effective_threshold threshold <? data_adc_sum pk).
Proof.
  unfold is_cool_event. rewrite total_adc_is_data_adc_sum.
  destruct threshold; reflexivity.
Qed.

(** C8.  [is_cool_event] answers true exactly when the sum of [dataword]
    over the packets of type 0 is strictly above the threshold, [None]
    standing for 20000; with the threshold equal to the sum the answer is
    false, with the sum one above the threshold it is true. *)
Theorem is_cool_event_strictly_above :
  forall (pk : list packet) (threshold : option Z),
    (is_cool_event pk threshold = true
       <-> effective_threshold threshold < data_adc_sum pk)
    /\ is_cool_event pk (Some (data_adc_sum pk)) = false
    /\ is_cool_event pk (Some (data_adc_sum pk - 1)) = true
    /\ is_cool_event pk None = (20000 <? data_adc_sum pk).
Proof.
  intros pk threshold. rewrite !is_cool_event_ltb. simpl.
  repeat split.
  - apply Z.ltb_lt.
  - apply Z.ltb_lt.
  - apply Z.ltb_irrefl.
  - apply Z.ltb_lt. lia.
Qed.

Example cool_at_threshold :
  is_cool_event [data 0 15000; pkt 7 1; data 2 5000] None = false.
Proof. reflexivity. Qed.

Example cool_one_above_threshold :
  is_cool_event [data 0 15000; pkt 7 1; data 2 5001] None = true.
Proof. reflexivity. Qed.

(** ** Trigger indices *)

Lemma nonzero_from_bounds (k : nat) (mask : list bool) :
  Forall (fun t => Z.of_nat k <= t < Z.of_nat (k + length mask))
         (np.nonzero_from k mask).
Proof.
  revert k; induction mask as [|b mask IH]; intros k; simpl; [constructor|].
  assert (H : Forall (fun t => Z.of_nat k <= t < Z.of_nat (k + S (length mask)))
                     (np.nonzero_from (S k) mask)).
  { eapply Forall_impl; [|apply IH]. simpl. intros t Ht. lia. }
  destruct b; [constructor; [lia|]|]; exact H.
Qed.

Lemma nonzero_from_sorted (k : nat) (mask : list bool) :
  strictly_increasing (np.nonzero_from k mask).
Proof.
  revert k; induction mask as [|b mask IH]; intros k; simpl; [constructor|].
  destruct b; [|apply IH].
  constructor; [apply IH|].
  eapply Forall_impl; [|apply (nonzero_from_bounds (S k) mask)].
  simpl. intros t Ht. lia.
Qed.

Lemma nonzero_from_In (k : nat) (mask : list bool) (t : Z) :
  In t (np.nonzero_from k mask) <->
  exists j : nat, t = Z.of_nat (k + j) /\ nth_error mask j = Some true.
Proof.
  revert k; induction mask as [|b mask IH]; intros k; simpl.
  - split; [tauto|]. intros [[|j] [_ H]]; discriminate.
  - assert (E : In t (np.nonzero_from (S k) mask) <->
                exists j : nat, t = Z.of_nat (k + S j) /\ nth_error mask j = Some true).
    { rewrite IH. split; intros [j [H1 H2]]; exists j; split; auto; lia. }
    destruct b; simpl; rewrite ?E; split.
    + intros [H|[j [H1 H2]]]; [exists 0%nat; split; [lia|reflexivity]|].
      exists (S j); auto.
    + intros [[|j] [H1 H2]]; [left; lia|right; exists j; auto].
    + intros [j [H1 H2]]. exists (S j); auto.
    + intros [[|j] [H1 H2]]; [discriminate|exists j; auto].
Qed.

Lemma nonzero_from_length (A : Type) (f : A -> bool) (k : nat) (l : list A) :
  length (np.nonzero_from k (map f l)) = length (filter f l).
Proof.
  revert k; induction l as [|x l IH]; intros k; simpl; [reflexivity|].
  destruct (f x); simpl; now rewrite IH.
Qed.

Lemma any_nonzero_from (k : nat) (mask : list bool) :
  np.any mask = true <-> np.nonzero_from k mask <> [].
Proof.
  revert k; induction mask as [|b mask IH]; intros k; simpl.
  - split; [discriminate|congruence].
  - destruct b; simpl; [split; [discriminate|reflexivity]|apply IH].
Qed.

Lemma trigger_at_nonzero (pk : list packet) (t : Z) :
  In t (np.nonzero (trigger_mask_of pk)) <-> trigger_at pk t = true.
Proof.
  unfold np.nonzero, trigger_at. rewrite nonzero_from_In. split.
  - intros [j [-> H]]. simpl.
    apply andb_true_iff; split; [apply Z.leb_le; lia|].
    rewrite Nat2Z.id. now apply nth_error_nth.
  - intros H. apply andb_true_iff in H. destruct H as [H0 H1].
    apply Z.leb_le in H0. exists (Z.to_nat t). split; [simpl; lia|].
    destruct (nth_error (trigger_mask_of pk) (Z.to_nat t)) as [b|] eqn:N.
    + rewrite (nth_error_nth _ _ false N) in H1. now subst.
    + apply nth_error_None in N. rewrite nth_overflow in H1; [discriminate|lia].
Qed.

Lemma trigger_at_inside (pk : list packet) (t : Z) :
  trigger_at pk t = true -> 0 <= t < len pk.
Proof.
  intros H. apply trigger_at_nonzero in H.
  pose proof (nonzero_from_bounds 0 (trigger_mask_of pk)) as B.
  rewrite Forall_forall in B. specialize (B t H).
  unfold trigger_mask_of in B. rewrite length_map in B. unfold len. lia.
Qed.

(** ** The branch without light data *)

Lemma diff_removelast_length (tp : list Z) :
  length (map not_one (np.diff tp)) = length (removelast tp).
Proof.
  induction tp as [|x tp IH]; [reflexivity|].
  destruct tp as [|y tp]; [reflexivity|].
  change (S (length (map not_one (np.diff (y :: tp))))
          = S (length (removelast (y :: tp)))).
  now rewrite IH.
Qed.

Lemma select_diff_run_ends (tp : list Z) :
  tp <> [] ->
  np.select (map not_one (np.diff tp)) (removelast tp) ++ [last tp 0] = run_ends tp.
Proof.
  induction tp as [|x tp IH]; [congruence|]. intros _.
  destruct tp as [|y tp]; [reflexivity|].
  assert (IH' := IH ltac:(discriminate)). clear IH.
  change (np.select (not_one (y - x) :: map not_one (np.diff (y :: tp)))
            (x :: removelast (y :: tp)) ++ [last (y :: tp) 0]
          = if y - x =? 1 then run_ends (y :: tp) else x :: run_ends (y :: tp)).
  unfold not_one at 1. simpl np.select.
  destruct (y - x =? 1); simpl negb; cbv iota.
  - exact IH'.
  - rewrite <- IH'. reflexivity.
Qed.

Lemma getitem_last (tp : list Z) :
  tp <> [] -> np.getitem tp (-1) = Ok (last tp 0).
Proof.
  intros H.
  assert (L : 1 <= len tp).
  { destruct tp; [congruence|]. unfold len; simpl; lia. }
  rewrite getitem_from_end by lia.
  rewrite (getitem_inside _ 0) by lia.
  f_equal.
  replace (Z.to_nat (-1 + len tp)) with (length tp - 1)%nat by (unfold len; lia).
  clear L. induction tp as [|x tp IH]; [congruence|].
  destruct tp as [|y tp]; [reflexivity|].
  specialize (IH ltac:(discriminate)).
  simpl in IH |- *. rewrite Nat.sub_0_r in IH. exact IH.
Qed.

(** What [get_event_dividers] returns when the file has no light data. *)
Lemma get_event_dividers_no_light (d : datalog) :
  light_trig d = None ->
  np.any (trigger_mask_of (packets d)) = true ->
  get_event_dividers d
  = Ok (Some (run_ends (np.nonzero (trigger_mask_of (packets d)))
                ++ [len (packets d)], [])).
Proof.
  intros HL HA. unfold get_event_dividers. rewrite HA, HL.
  set (tp := np.nonzero (trigger_mask_of (packets d))).
  assert (NE : tp <> []) by (apply (any_nonzero_from 0); exact HA).
  fold not_one.
  rewrite mask_index_Ok by apply diff_removelast_length.
  rewrite getitem_last by exact NE. simpl.
  rewrite <- (select_diff_run_ends NE), <- app_assoc. reflexivity.
Qed.

Example dividers_scenario :
  get_event_dividers scenario_log = Ok (Some ([0; 2; 5; 7], [])).
Proof. reflexivity. Qed.

Lemma get_event_dividers_none (d : datalog) :
  np.any (trigger_mask_of (packets d)) = false ->
  get_event_dividers d = Ok None.
Proof.
  intros H. unfold get_event_dividers. now rewrite H.
Qed.

Lemma run_ends_incl (tp : list Z) (t : Z) : In t (run_ends tp) -> In t tp.
Proof.
  induction tp as [|x tp IH]; [tauto|].
  destruct tp as [|y tp]; [tauto|].
  change (In t (if y - x =? 1 then run_ends (y :: tp) else x :: run_ends (y :: tp))
          -> In t (x :: y :: tp)).
  destruct (y - x =? 1).
  - intros H. right. now apply IH.
  - intros [H|H]; [now left|right; now apply IH].
Qed.

Lemma run_ends_nonempty (tp : list Z) : tp <> [] -> run_ends tp <> [].
Proof.
  induction tp as [|x tp IH]; [congruence|]. intros _.
  destruct tp as [|y tp]; [discriminate|].
  change ((if y - x =? 1 then run_ends (y :: tp) else x :: run_ends (y :: tp)) <> []).
  destruct (y - x =? 1); [apply IH|]; discriminate.
Qed.

Lemma run_ends_sorted (tp : list Z) :
  strictly_increasing tp -> strictly_increasing (run_ends tp).
Proof.
  unfold strictly_increasing.
  induction tp as [|x tp IH]; [trivial|].
  intros S. inversion S as [|? ? S' F]; subst.
  destruct tp as [|y tp]; [exact S|].
  change (StronglySorted Z.lt
            (if y - x =? 1 then run_ends (y :: tp) else x :: run_ends (y :: tp))).
  destruct (y - x =? 1); [now apply IH|].
  constructor; [now apply IH|].
  rewrite Forall_forall in F |- *. intros t Ht. apply F. now apply run_ends_incl.
Qed.

(** A trigger index is kept exactly when the index after it is not a
    trigger index. *)
Lemma run_ends_In (tp : list Z) (t : Z) :
  strictly_increasing tp ->
  (In t (run_ends tp) <-> In t tp /\ ~ In (t + 1) tp).
Proof.
  unfold strictly_increasing.
  induction tp as [|x tp IH]; [simpl; tauto|].
  intros S. inversion S as [|? ? S' F]; subst.
  destruct tp as [|y tp].
  - simpl. split; [intros [<-|[]]; split; [now left|intros [H|[]]; lia]|tauto].
  - specialize (IH S').
    inversion S' as [|? ? S'' F']; subst.
    rewrite Forall_forall in F, F'.
    assert (Hy : x < y) by (apply F; now left).
    assert (Htp : forall z, In z tp -> y < z) by (intros z Hz; now apply F').
    change (In t (if y - x =? 1 then run_ends (y :: tp) else x :: run_ends (y :: tp))
            <-> In t (x :: y :: tp) /\ ~ In (t + 1) (x :: y :: tp)).
    destruct (y - x =? 1) eqn:E.
    + apply Z.eqb_eq in E. rewrite IH. split.
      * intros [H1 H2]. split; [now right|].
        intros [H|H]; [|now apply H2].
        assert (x < t) by (apply F; exact H1). lia.
      * intros [[H1|H1] H2].
        -- exfalso. apply H2. right; left. lia.
        -- split; [exact H1|]. intros H. apply H2. now right.
    + apply Z.eqb_neq in E. split.
      * intros [<-|H].
        -- split; [now left|]. intros [H|[H|H]]; [lia|lia|].
           specialize (Htp _ H). lia.
        -- apply IH in H. destruct H as [H1 H2]. split; [now right|].
           intros [H|H]; [|now apply H2].
           assert (x < t) by (apply F; exact H1). lia.
      * intros [[H1|H1] H2]; [now left|right].
        apply IH. split; [exact H1|]. intros H. apply H2. now right.
Qed.

Lemma trigger_packets_sorted (pk : list packet) :
  strictly_increasing (np.nonzero (trigger_mask_of pk)).
Proof. apply nonzero_from_sorted. Qed.

(** In the branch without light data, the boundaries before the closing
    one are the triggers that are not followed by a trigger. *)
Lemma run_ends_trigger (pk : list packet) (t : Z) :
  In t (run_ends (np.nonzero (trigger_mask_of pk)))
  <-> trigger_at pk t = true /\ trigger_at pk (t + 1) = false.
Proof.
  rewrite run_ends_In by apply trigger_packets_sorted.
  rewrite !trigger_at_nonzero.
  destruct (trigger_at pk (t + 1)); intuition congruence.
Qed.

(** ** Files without a trigger packet *)

Lemma no_trigger_consumers (d : datalog) :
  np.any (trigger_mask_of (packets d)) = false ->
  forall (event_id : Z) (threshold : option Z) (direction : Z)
         (modified_timestamp : option Z) (geometry_known : bool),
    update_total_events modified_timestamp d = Raise TypeError
    /\ update_output event_id d geometry_known = Raise TypeError
    /\ update_event_id_click event_id d = Raise TypeError
    /\ find_cool_event event_id d threshold direction = Raise TypeError.
Proof.
  intros H. intros.
  unfold update_total_events, update_output, update_event_id_click, find_cool_event.
  rewrite (get_event_dividers_none d H). simpl. auto.
Qed.

(** C3.  On a log of three data packets and no trigger packet,
    [get_event_dividers] returns [None], not a table, and every caller
    raises [TypeError] when it unpacks the result: the tests
    [event_dividers is None] and [len(event_dividers) < 2] that come after
    are never reached. *)
Theorem no_trigger_log_raises :
  get_event_dividers no_trigger_log = Ok None
  /\ update_total_events (Some 0) no_trigger_log = Raise TypeError
  /\ update_output 0 no_trigger_log true = Raise TypeError
  /\ update_event_id_click 0 no_trigger_log = Raise TypeError
  /\ find_cool_event 0 no_trigger_log None 1 = Raise TypeError.
Proof. repeat split. Qed.

(** ** Files with a single trigger packet *)

(** The claim fails on a log whose only trigger is its second packet:
    the table has two entries. *)
Lemma single_trigger_log_two_entries :
  trigger_count single_trigger_log = 1%nat
  /\ light_trig single_trigger_log = None
  /\ get_event_dividers single_trigger_log = Ok (Some ([1; 3], []))
  /\ ~ (len [1; 3] < 2).
Proof.
  repeat split. unfold len; simpl; lia.
Qed.

(** C4, amended.  With exactly one trigger packet, at index [t], and no
    light data, the table is [[t; len(packets)]]: two entries, one span
    from the trigger to the end of the log. *)
Theorem single_trigger_dividers :
  forall d : datalog,
    trigger_count d = 1%nat ->
    light_trig d = None ->
    exists t : Z,
      trigger_at (packets d) t = true
      /\ 0 <= t < len (packets d)
      /\ get_event_dividers d = Ok (Some ([t; len (packets d)], [])).
Proof.
  intros d HC HL.
  assert (HN : length (np.nonzero (trigger_mask_of (packets d))) = 1%nat).
  { unfold np.nonzero, trigger_mask_of. now rewrite nonzero_from_length. }
  destruct (np.nonzero (trigger_mask_of (packets d))) as [|t [|? ?]] eqn:E;
    try discriminate.
  assert (HT : trigger_at (packets d) t = true).
  { apply trigger_at_nonzero. rewrite E. now left. }
  exists t. split; [exact HT|]. split; [now apply trigger_at_inside|].
  rewrite get_event_dividers_no_light; [now rewrite E|exact HL|].
  apply (any_nonzero_from 0). unfold np.nonzero in E. rewrite E. discriminate.
Qed.

Lemma single_trigger_dividers_witness :
  trigger_count single_trigger_log = 1%nat
  /\ light_trig single_trigger_log = None
  /\ exists t : Z,
      trigger_at (packets single_trigger_log) t = true
      /\ 0 <= t < len (packets single_trigger_log)
      /\ get_event_dividers single_trigger_log
         = Ok (Some ([t; len (packets single_trigger_log)], [])).
Proof.
  split; [reflexivity|]. split; [reflexivity|].
  apply (single_trigger_dividers single_trigger_log); reflexivity.
Defined.

(** ** The branch with light data *)

Lemma get_event_dividers_light (d : datalog) (lt : list light_trigger) :
  light_trig d = Some lt ->
  np.any (trigger_mask_of (packets d)) = true ->
  get_event_dividers d = (m <- light_matches d lt ;; merge_matches d lt m).
Proof.
  intros HL HA. unfold get_event_dividers, light_matches, merge_matches.
  rewrite HA, HL.
  destruct (np.mask_index (packets d) (trigger_mask_of (packets d))) as [trig|];
    [|reflexivity].
  unfold np.intersect1d, merge_mask_of. cbn [bind].
  destruct (np.take (np.nonzero (trigger_mask_of (packets d))) _) as [ic|];
    [|reflexivity].
  cbn [bind].
  destruct (np.take _ (np.argsort _)) as [il'|]; [|reflexivity]. cbn [bind].
  destruct (np.take ic _) as [ic'|]; [|reflexivity]. cbn [bind].
  destruct (np.take _ _) as [ts'|]; reflexivity.
Qed.

Lemma bind_Ok_inv (A B : Type) (m : outcome A) (k : A -> outcome B) (r : B) :
  bind m k = Ok r -> exists a : A, m = Ok a /\ k a = Ok r.
Proof.
  destruct m as [a|e]; simpl; [|discriminate].
  intros H. now exists a.
Qed.

(** Where the three arrays of [light_matches] come from. *)
Lemma light_matches_inv (d : datalog) (lt : list light_trigger)
    (ts il ic : list Z) :
  light_matches d lt = Ok (ts, il, ic) ->
  exists (trig : list packet) (ic0 : list Z),
    let a := map ts_sync lt in
    let b := map timestamp trig in
    let common := filter (fun v => np.isin v b) (np.unique a) in
    let il0 := map (fun v => Z.of_nat (np.first_index v a)) common in
    trig = np.select (trigger_mask_of (packets d)) (packets d)
    /\ np.take (np.nonzero (trigger_mask_of (packets d)))
         (map (fun v => Z.of_nat (np.first_index v b)) common) = Ok ic0
    /\ np.take il0 (np.argsort il0) = Ok il
    /\ np.take ic0 (np.argsort il0) = Ok ic
    /\ np.take common (np.argsort il0) = Ok ts.
Proof.
  unfold light_matches. intros H.
  apply bind_Ok_inv in H. destruct H as [trig [E H]].
  apply mask_index_inv in E. destruct E as [_ E].
  unfold np.intersect1d in H. cbv beta iota in H.
  apply bind_Ok_inv in H. destruct H as [ic0 [E0 H]].
  apply bind_Ok_inv in H. destruct H as [il' [E1 H]].
  apply bind_Ok_inv in H. destruct H as [ic' [E2 H]].
  apply bind_Ok_inv in H. destruct H as [ts' [E3 H]].
  exists trig, ic0. cbv zeta.
  assert (Hts : ts' = ts) by congruence.
  assert (Hil : il' = il) by congruence.
  assert (Hic : ic' = ic) by congruence.
  subst. auto.
Qed.

Lemma light_matches_lengths (d : datalog) (lt : list light_trigger)
    (ts il ic : list Z) :
  light_matches d lt = Ok (ts, il, ic) ->
  length il = length ts /\ length ic = length ts.
Proof.
  intros H. apply light_matches_inv in H.
  destruct H as [trig [ic0 [_ [_ [E1 [E2 E3]]]]]].
  apply take_length in E1, E2, E3. split; congruence.
Qed.

Lemma light_matches_packets (d : datalog) (lt : list light_trigger)
    (ts il ic : list Z) :
  light_matches d lt = Ok (ts, il, ic) ->
  forall t, In t ic -> trigger_at (packets d) t = true.
Proof.
  intros H t Ht. apply light_matches_inv in H.
  destruct H as [trig [ic0 [_ [E0 [_ [E2 _]]]]]].
  apply trigger_at_nonzero.
  eapply take_incl; [exact E0|]. eapply take_incl; [exact E2|exact Ht].
Qed.

Lemma diff_length (a : list Z) : length (np.diff a) = (length a - 1)%nat.
Proof.
  induction a as [|x a IH]; [reflexivity|].
  destruct a as [|y a]; [reflexivity|].
  change (S (length (np.diff (y :: a))) = (length (x :: y :: a) - 1)%nat).
  rewrite IH. simpl. lia.
Qed.

Lemma merge_mask_length (ts : list Z) :
  ts <> [] -> length (true :: merge_mask_of ts) = length ts.
Proof.
  intros H. unfold merge_mask_of. simpl. rewrite length_map, diff_length.
  destruct ts; [congruence|simpl; lia].
Qed.

(** The merge step succeeds exactly when some light trigger was matched. *)
Lemma merge_matches_Ok (d : datalog) (lt : list light_trigger) (ts il ic : list Z) :
  length il = length ts -> length ic = length ts -> ts <> [] ->
  merge_matches d lt (ts, il, ic)
  = Ok (Some (np.select (true :: merge_mask_of ts) ic ++ [len (packets d)],
              np.select (true :: merge_mask_of ts) il ++ [len lt])).
Proof.
  intros Hil Hic Hts. unfold merge_matches.
  rewrite !mask_index_Ok by (rewrite merge_mask_length by exact Hts; congruence).
  reflexivity.
Qed.

Lemma merge_matches_empty (d : datalog) (lt : list light_trigger) (il ic : list Z) :
  length il = 0%nat ->
  merge_matches d lt ([], il, ic) = Raise IndexError.
Proof.
  intros H. destruct il; [reflexivity|discriminate].
Qed.

(** Every successful call yields boundaries of this shape: indices of
    trigger packets, closed by the number of packets. *)
Lemma dividers_shape (d : datalog) (ev lv : list Z) :
  get_event_dividers d = Ok (Some (ev, lv)) ->
  exists body : list Z,
    ev = body ++ [len (packets d)]
    /\ body <> []
    /\ forall t, In t body -> trigger_at (packets d) t = true.
Proof.
  intros H.
  destruct (np.any (trigger_mask_of (packets d))) eqn:HA;
    [|rewrite get_event_dividers_none in H by exact HA; discriminate].
  destruct (light_trig d) as [lt|] eqn:HL.
  - rewrite (get_event_dividers_light d HL HA) in H.
    destruct (light_matches d lt) as [[[ts il] ic]|] eqn:M; [|discriminate].
    cbn [bind] in H.
    destruct (light_matches_lengths d lt M) as [Hil Hic].
    destruct ts as [|t0 ts].
    { rewrite merge_matches_empty in H by exact Hil. discriminate. }
    rewrite merge_matches_Ok in H by (auto; discriminate).
    injection H as <- <-.
    exists (np.select (true :: merge_mask_of (t0 :: ts)) ic). split; [reflexivity|].
    split.
    + destruct ic; [discriminate|]. discriminate.
    + intros t Ht. eapply light_matches_packets; [exact M|].
      eapply select_incl; exact Ht.
  - rewrite get_event_dividers_no_light in H by assumption.
    injection H as <- <-.
    exists (run_ends (np.nonzero (trigger_mask_of (packets d)))).
    split; [reflexivity|]. split.
    + apply run_ends_nonempty. now apply (any_nonzero_from 0).
    + intros t Ht. now apply run_ends_trigger in Ht.
Qed.

(** ** The packet range of an event *)

(** The claim fails for a negative id: [-2] is read from the end of the
    table and the range of the last event comes back. *)
Lemma negative_event_id_returns_range :
  get_event_dividers scenario_log = Ok (Some ([0; 2; 5; 7], []))
  /\ -2 < 0
  /\ draw_event scenario_log [0; 2; 5; 7] (-2)
     = Ok (mkHits [pkt 7 5; pkt 0 6] 5 5)
  /\ update_output (-2) scenario_log true
     = Ok (Shown (mkHits [pkt 7 5; pkt 0 6] 5 5)).
Proof. repeat split. Qed.

Lemma draw_event_outside (d : datalog) (event_dividers : list Z) (event_id : Z) :
  len event_dividers - 1 <= event_id \/ event_id < - len event_dividers ->
  draw_event d event_dividers event_id = Raise IndexError.
Proof.
  pose proof (len_nonneg event_dividers) as L.
  intros [H|H]; unfold draw_event.
  - destruct (Z_lt_le_dec event_id (len event_dividers)) as [Hlt|Hge].
    + destruct (Z_lt_le_dec event_id 0) as [Hn|Hp].
      * rewrite getitem_before by lia. reflexivity.
      * rewrite (getitem_inside _ 0) by lia. cbn [bind].
        rewrite getitem_beyond by lia. reflexivity.
    + rewrite getitem_beyond by lia. reflexivity.
  - rewrite getitem_before by lia. reflexivity.
Qed.

(** C5, amended.  An event id of [len(boundaries) - 1] or more, or below
    [-len(boundaries)], makes the range computation raise [IndexError];
    [update_output] catches it and shows the alert instead of a figure. *)
Theorem event_range_out_of_range :
  forall (d : datalog) (event_dividers : list Z) (event_id : Z),
    len event_dividers - 1 <= event_id \/ event_id < - len event_dividers ->
    draw_event d event_dividers event_id = Raise IndexError
    /\ forall light_dividers : list Z,
         get_event_dividers d = Ok (Some (event_dividers, light_dividers)) ->
         update_output event_id d true = Ok AlertOnly.
Proof.
  intros d ev id H. split; [now apply draw_event_outside|].
  intros lv G. unfold update_output. rewrite G. cbn [bind unpack fst negb].
  now rewrite draw_event_outside.
Qed.

Lemma event_range_out_of_range_witness :
  (len [0; 2; 5; 7] - 1 <= 3 \/ 3 < - len [0; 2; 5; 7])
  /\ draw_event scenario_log [0; 2; 5; 7] 3 = Raise IndexError
  /\ update_output 3 scenario_log true = Ok AlertOnly.
Proof.
  assert (H : len [0; 2; 5; 7] - 1 <= 3 \/ 3 < - len [0; 2; 5; 7])
    by (left; unfold len; simpl; lia).
  split; [exact H|].
  destruct (@event_range_out_of_range scenario_log [0; 2; 5; 7] 3 H) as [H1 H2].
  split; [exact H1|]. apply (H2 []). reflexivity.
Defined.

Lemma raw_range_from (pk : list packet) (k : nat) (s e : Z) :
  0 <= s ->
  map snd (filter (in_span s e) (combine (map Z.of_nat (seq k (length pk))) pk))
  = firstn (Z.to_nat (e - Z.max s (Z.of_nat k)))
           (skipn (Z.to_nat (s - Z.of_nat k)) pk).
Proof.
  intros Hs. revert k; induction pk as [|p pk IH]; intros k.
  - simpl. now rewrite skipn_nil, firstn_nil.
  - cbn [length seq map combine filter].
    unfold in_span at 1. cbn [fst].
    destruct (s <=? Z.of_nat k) eqn:E1; cbn [andb].
    + apply Z.leb_le in E1.
      replace (Z.to_nat (s - Z.of_nat k)) with 0%nat by lia.
      cbn [skipn].
      destruct (Z.of_nat k <? e) eqn:E2.
      * apply Z.ltb_lt in E2.
        replace (Z.to_nat (e - Z.max s (Z.of_nat k)))
          with (S (Z.to_nat (e - Z.max s (Z.of_nat (S k))))) by lia.
        cbn [map snd firstn]. rewrite (IH (S k)).
        replace (Z.to_nat (s - Z.of_nat (S k))) with 0%nat by lia.
        reflexivity.
      * apply Z.ltb_ge in E2.
        replace (Z.to_nat (e - Z.max s (Z.of_nat k))) with 0%nat by lia.
        rewrite (IH (S k)).
        replace (Z.to_nat (e - Z.max s (Z.of_nat (S k)))) with 0%nat by lia.
        reflexivity.
    + apply Z.leb_gt in E1.
      replace (Z.to_nat (s - Z.of_nat k))
        with (S (Z.to_nat (s - Z.of_nat (S k)))) by lia.
      cbn [skipn]. rewrite (IH (S k)).
      replace (Z.max s (Z.of_nat (S k))) with (Z.max s (Z.of_nat k)) by lia.
      reflexivity.
Qed.

(** For bounds that are not negative the slice is the raw sub-range. *)
Lemma slice_raw_range (pk : list packet) (s e : Z) :
  0 <= s -> 0 <= e -> np.slice pk s e = raw_range pk s e.
Proof.
  intros Hs He. unfold raw_range, np.arange.
  rewrite (raw_range_from pk 0 e Hs).
  unfold np.slice, np.clip.
  destruct (s <? 0) eqn:E1; [apply Z.ltb_lt in E1; lia|].
  destruct (e <? 0) eqn:E2; [apply Z.ltb_lt in E2; lia|].
  simpl Z.of_nat. rewrite Z.sub_0_r.
  pose proof (len_nonneg pk) as L. unfold len in *.
  destruct (Z_lt_le_dec s (Z.of_nat (length pk))) as [Hlt|Hge].
  - replace (Z.min s (Z.of_nat (length pk))) with s by lia.
    destruct (Z_lt_le_dec e (Z.of_nat (length pk))) as [Hlt'|Hge'].
    + replace (Z.min e (Z.of_nat (length pk))) with e by lia.
      f_equal. lia.
    + rewrite !firstn_all2; [reflexivity| |]; rewrite length_skipn; lia.
  - rewrite !skipn_all2 by lia. now rewrite !firstn_nil.
Qed.

Lemma dividers_entries (d : datalog) (ev lv : list Z) :
  get_event_dividers d = Ok (Some (ev, lv)) ->
  (forall k : nat, (S k < length ev)%nat ->
     trigger_at (packets d) (nth k ev 0) = true)
  /\ (forall x, In x ev -> 0 <= x)
  /\ last ev 0 = len (packets d).
Proof.
  intros H. destruct (dividers_shape d H) as [body [-> [NE HB]]].
  split; [|split].
  - intros k Hk. rewrite length_app in Hk. simpl in Hk.
    rewrite app_nth1 by lia. apply HB. apply nth_In. lia.
  - intros x Hx. apply in_app_or in Hx. destruct Hx as [Hx|[<-|[]]].
    + apply HB in Hx. apply trigger_at_inside in Hx. lia.
    + apply len_nonneg.
  - apply last_last.
Qed.

(** C9.  For a table returned by [get_event_dividers] and an event id from
    0 to [len(boundaries) - 2], [draw_event] keeps, of the packets with
    index in [[boundary[id], boundary[id+1])], those whose timestamp minus
    the timestamp of the first of them is below 2000. *)
Theorem event_packets_within_buffer :
  forall (d : datalog) (ev lv : list Z) (event_id : Z),
    get_event_dividers d = Ok (Some (ev, lv)) ->
    0 <= event_id < len ev - 1 ->
    let s := nth (Z.to_nat event_id) ev 0 in
    let e := nth (Z.to_nat (event_id + 1)) ev 0 in
    let reference := timestamp (nth (Z.to_nat s) (packets d) no_packet) in
    draw_event d ev event_id
    = Ok (mkHits
            (filter (fun p => timestamp p - reference <? 2000)
                    (raw_range (packets d) s e))
            s reference).
Proof.
  intros d ev lv id G Hid s e reference.
  destruct (dividers_entries d G) as [HT [HP _]].
  assert (Hs : trigger_at (packets d) s = true).
  { apply HT. unfold len in Hid. lia. }
  apply trigger_at_inside in Hs.
  assert (He : 0 <= e).
  { apply HP. apply nth_In. unfold len in Hid. lia. }
  unfold draw_event.
  rewrite (getitem_inside _ 0) by lia. cbn [bind]. fold s.
  rewrite (getitem_inside _ 0) by lia. cbn [bind]. fold e.
  rewrite (getitem_inside _ no_packet) by lia. cbn [bind]. fold reference.
  rewrite select_filter, slice_raw_range by lia.
  reflexivity.
Qed.

(** The scenario of the specification: of the timestamps 1000, 1500 and
    3500 the first two are kept. *)
Lemma event_packets_within_buffer_witness :
  get_event_dividers buffer_log = Ok (Some ([0; 3; 5], []))
  /\ 0 <= 0 < len [0; 3; 5] - 1
  /\ draw_event buffer_log [0; 3; 5] 0
     = Ok (mkHits [pkt 7 1000; data 1500 40] 0 1000).
Proof.
  split; [reflexivity|]. split; [unfold len; simpl; lia|].
  rewrite (@event_packets_within_buffer buffer_log [0; 3; 5] [] 0);
    [reflexivity|reflexivity|unfold len; simpl; lia].
Defined.

(** ** Event spans *)

Lemma sorted_snoc (l : list Z) (x : Z) :
  strictly_increasing l -> (forall y, In y l -> y < x) ->
  strictly_increasing (l ++ [x]).
Proof.
  unfold strictly_increasing.
  induction l as [|a l IH]; intros S H; simpl.
  - constructor; constructor.
  - inversion S as [|? ? S' F]; subst.
    constructor.
    + apply IH; [exact S'|]. intros y Hy. apply H. now right.
    + apply Forall_app. split; [exact F|].
      constructor; [|constructor]. apply H. now left.
Qed.

Lemma sorted_nth_lt (l : list Z) (i j : nat) :
  strictly_increasing l -> (i < j)%nat -> (j < length l)%nat ->
  nth i l 0 < nth j l 0.
Proof.
  unfold strictly_increasing. intros S. revert i j.
  induction S as [|a l S IH F]; intros i j Hij Hj; [simpl in Hj; lia|].
  destruct j as [|j]; [lia|]. simpl in Hj.
  destruct i as [|i].
  - simpl. rewrite Forall_forall in F. apply F. apply nth_In. lia.
  - simpl. apply IH; lia.
Qed.

Lemma sorted_nth_le (l : list Z) (i j : nat) :
  strictly_increasing l -> (i <= j)%nat -> (j < length l)%nat ->
  nth i l 0 <= nth j l 0.
Proof.
  intros S Hij Hj. destruct (Nat.eq_dec i j) as [->|N]; [lia|].
  apply Z.lt_le_incl. apply sorted_nth_lt; auto. lia.
Qed.

(** Between the first and the last entry some span holds [t]. *)
Lemma covers_exists (ev : list Z) (t : Z) :
  hd 0 ev <= t < last ev 0 -> exists i : nat, covers ev i t.
Proof.
  induction ev as [|a ev IH]; [simpl; lia|].
  destruct ev as [|b ev]; [simpl; lia|].
  intros [H1 H2].
  destruct (Z_lt_le_dec t b) as [Hlt|Hge].
  - exists 0%nat. unfold covers. simpl in *. split; [lia|lia].
  - destruct IH as [i [Hi Hc]].
    + split; [exact Hge|exact H2].
    + exists (S i). unfold covers. split; [simpl in *; lia|exact Hc].
Qed.

(** In an increasing table no two spans hold the same index. *)
Lemma covers_unique (ev : list Z) (i j : nat) (t : Z) :
  strictly_increasing ev -> covers ev i t -> covers ev j t -> i = j.
Proof.
  intros Hs [Hi Ci] [Hj Cj].
  destruct (lt_eq_lt_dec i j) as [[H|H]|H]; [|exact H|].
  - pose proof (@sorted_nth_le ev (S i) j Hs ltac:(lia) ltac:(lia)). lia.
  - pose proof (@sorted_nth_le ev (S j) i Hs ltac:(lia) ltac:(lia)). lia.
Qed.

Lemma covers_after_head (ev : list Z) (i : nat) (t : Z) :
  strictly_increasing ev -> covers ev i t -> hd 0 ev <= t.
Proof.
  intros S [Hi Ci].
  pose proof (@sorted_nth_le ev 0 i S ltac:(lia) ltac:(lia)) as H.
  destruct ev; simpl in *; lia.
Qed.

Lemma no_light_inv (d : datalog) (ev lv : list Z) :
  light_trig d = None ->
  get_event_dividers d = Ok (Some (ev, lv)) ->
  ev = run_ends (np.nonzero (trigger_mask_of (packets d))) ++ [len (packets d)]
  /\ lv = [].
Proof.
  intros HL H.
  destruct (np.any (trigger_mask_of (packets d))) eqn:HA;
    [|rewrite get_event_dividers_none in H by exact HA; discriminate].
  rewrite get_event_dividers_no_light in H by assumption.
  injection H as <- <-. auto.
Qed.

Lemma no_light_sorted (pk : list packet) :
  strictly_increasing (run_ends (np.nonzero (trigger_mask_of pk)) ++ [len pk]).
Proof.
  apply sorted_snoc.
  - apply run_ends_sorted, trigger_packets_sorted.
  - intros y Hy. apply run_ends_trigger in Hy. destruct Hy as [Hy _].
    apply trigger_at_inside in Hy. lia.
Qed.

(** The claim fails when the log opens with two adjacent triggers: the
    first boundary is the second of them, and no span holds index 0. *)
Lemma leading_run_trigger_uncovered :
  (2 <= trigger_count leading_run_log)%nat
  /\ get_event_dividers leading_run_log = Ok (Some ([1; 4; 6], []))
  /\ trigger_at (packets leading_run_log) 0 = true
  /\ forall i : nat, ~ covers [1; 4; 6] i 0.
Proof.
  split; [unfold trigger_count; simpl; lia|].
  split; [reflexivity|]. split; [reflexivity|].
  intros i [Hi Hc]. simpl in Hi.
  destruct i as [|[|i]]; simpl in Hc; lia.
Qed.

(** C1, amended.  Without light data, a trigger index at or after the
    first boundary lies in exactly one span of the table; a trigger index
    before the first boundary lies in none, and the packet after it is a
    trigger too: it opens the log's first run of adjacent triggers. *)
Theorem no_light_trigger_coverage :
  forall (d : datalog) (ev lv : list Z) (t : Z),
    light_trig d = None ->
    get_event_dividers d = Ok (Some (ev, lv)) ->
    trigger_at (packets d) t = true ->
    (hd 0 ev <= t ->
       exists i : nat, covers ev i t /\ forall j : nat, covers ev j t -> j = i)
    /\ (t < hd 0 ev ->
          trigger_at (packets d) (t + 1) = true
          /\ forall j : nat, ~ covers ev j t).
Proof.
  intros d ev lv t HL G HT.
  destruct (no_light_inv d HL G) as [-> _].
  pose proof (no_light_sorted (packets d)) as S.
  set (body := run_ends (np.nonzero (trigger_mask_of (packets d)))) in *.
  split.
  - intros Hh.
    destruct (@covers_exists (body ++ [len (packets d)]) t) as [i Hi].
    + split; [exact Hh|]. rewrite last_last.
      apply trigger_at_inside in HT. lia.
    + exists i. split; [exact Hi|]. intros j Hj.
      eapply covers_unique; eauto.
  - intros Hh. split.
    + destruct (trigger_at (packets d) (t + 1)) eqn:E; [reflexivity|].
      exfalso.
      assert (Hin : In t body) by (apply run_ends_trigger; auto).
      assert (In t (body ++ [len (packets d)])) as Hin' by (apply in_or_app; now left).
      destruct (In_nth _ _ 0 Hin') as [k [Hk Hn]].
      pose proof (@sorted_nth_le _ 0 k S ltac:(lia) Hk) as Hle.
      rewrite Hn in Hle.
      destruct (body ++ [len (packets d)]); simpl in *; lia.
    + intros j Hj. apply (covers_after_head S) in Hj. lia.
Qed.

Lemma no_light_trigger_coverage_witness :
  light_trig leading_run_log = None
  /\ get_event_dividers leading_run_log = Ok (Some ([1; 4; 6], []))
  /\ trigger_at (packets leading_run_log) 4 = true
  /\ hd 0 [1; 4; 6] <= 4
  /\ exists i : nat,
       covers [1; 4; 6] i 4 /\ forall j : nat, covers [1; 4; 6] j 4 -> j = i.
Proof.
  split; [reflexivity|]. split; [reflexivity|]. split; [reflexivity|].
  split; [simpl; lia|].
  apply (@no_light_trigger_coverage leading_run_log [1; 4; 6] [] 4);
    [reflexivity|reflexivity|reflexivity|simpl; lia].
Defined.

(** ** Runs of adjacent triggers *)

(** The claim fails for the run that opens the log: the packets 0 and 1
    are triggers and packet 2 is not, the boundary of the run is 1, its
    last trigger, and it is the first entry of the table; no event
    precedes it, and the earlier trigger 0 lies in no span. *)
Lemma opening_run_outside_every_span :
  light_trig leading_run_log = None
  /\ get_event_dividers leading_run_log = Ok (Some ([1; 4; 6], []))
  /\ (forall t, 0 <= t <= 1 -> trigger_at (packets leading_run_log) t = true)
  /\ trigger_at (packets leading_run_log) (1 + 1) = false
  /\ nth 0 [1; 4; 6] 0 = 1
  /\ forall i : nat, ~ covers [1; 4; 6] i 0.
Proof.
  split; [reflexivity|]. split; [reflexivity|]. split.
  { intros t Ht. assert (E : t = 0 \/ t = 1) by lia.
    destruct E as [->| ->]; reflexivity. }
  split; [reflexivity|]. split; [reflexivity|].
  intros i [Hi Hc]. simpl in Hi.
  destruct i as [|[|i]]; simpl in Hc; lia.
Qed.

(** C10, amended.  Without light data, let the packets at the indices
    from [a] to [b] all be triggers and the packet after [b] not be one
    (or not be there).  Then [b] is a boundary and no index of the run
    before [b] is an entry of the table.  The first entry of the table is
    at most [b].  When it is below [b], an event precedes the boundary
    [b] and its span holds every index of the run before [b]; when it is
    [b] itself, the run opens the log and the indices of the run before
    [b] lie in no span. *)
Theorem run_boundary_is_last_trigger :
  forall (d : datalog) (ev lv : list Z) (a b : Z),
    light_trig d = None ->
    get_event_dividers d = Ok (Some (ev, lv)) ->
    a <= b ->
    (forall t, a <= t <= b -> trigger_at (packets d) t = true) ->
    trigger_at (packets d) (b + 1) = false ->
    (exists k : nat, (S k < length ev)%nat /\ nth k ev 0 = b)
    /\ (forall t, a <= t < b -> ~ In t ev)
    /\ (forall (t : Z) (k : nat),
          a <= t < b -> (S k < length ev)%nat -> nth (S k) ev 0 = b ->
          covers ev k t)
    /\ hd 0 ev <= b
    /\ (hd 0 ev < b ->
        exists k : nat,
          (S k < length ev)%nat /\ nth (S k) ev 0 = b
          /\ forall t, a <= t < b -> covers ev k t)
    /\ (hd 0 ev = b ->
        forall (t : Z) (k : nat), a <= t < b -> ~ covers ev k t).
Proof.
  intros d ev lv a b HL G Hab Hrun Hend.
  destruct (no_light_inv d HL G) as [-> _].
  pose proof (no_light_sorted (packets d)) as Hs.
  set (body := run_ends (np.nonzero (trigger_mask_of (packets d)))) in *.
  assert (Hbody : forall x, In x body ->
            trigger_at (packets d) x = true /\ trigger_at (packets d) (x + 1) = false).
  { intros x Hx. now apply run_ends_trigger in Hx. }
  assert (Hb : In b body).
  { apply run_ends_trigger. split; [apply Hrun; lia|exact Hend]. }
  destruct (In_nth _ _ 0 Hb) as [kb [Hkb Hnb]].
  assert (Hnb' : nth kb (body ++ [len (packets d)]) 0 = b)
    by now rewrite app_nth1.
  assert (Hlen : length (body ++ [len (packets d)]) = S (length body))
    by (rewrite length_app; simpl; lia).
  assert (Hprev : forall (t : Z) (k : nat),
            a <= t < b -> (S k < length (body ++ [len (packets d)]))%nat ->
            nth (S k) (body ++ [len (packets d)]) 0 = b ->
            covers (body ++ [len (packets d)]) k t).
  { intros t k Ht Hk Hn. split; [exact Hk|]. rewrite Hn.
    split; [|lia].
    pose proof (@sorted_nth_lt _ k (S k) Hs ltac:(lia) Hk) as Hlt.
    rewrite Hn in Hlt.
    rewrite Hlen in Hk.
    assert (Hx : In (nth k (body ++ [len (packets d)]) 0) body).
    { rewrite app_nth1 by lia. apply nth_In. lia. }
    apply Hbody in Hx. destruct Hx as [_ Hx].
    destruct (Z_lt_le_dec (nth k (body ++ [len (packets d)]) 0) a) as [Hl|Hg];
      [lia|].
    rewrite Hrun in Hx by lia. discriminate. }
  assert (Hhd : hd 0 (body ++ [len (packets d)])
                = nth 0 (body ++ [len (packets d)]) 0)
    by (destruct (body ++ [len (packets d)]); reflexivity).
  split; [|split; [|split; [|split; [|split]]]].
  - exists kb. split; [lia|exact Hnb'].
  - intros t Ht Hin. apply in_app_or in Hin. destruct Hin as [Hin|[Hin|[]]].
    + apply Hbody in Hin. destruct Hin as [_ Hin].
      rewrite Hrun in Hin by lia. discriminate.
    + assert (HT : trigger_at (packets d) t = true) by (apply Hrun; lia).
      apply trigger_at_inside in HT. lia.
  - exact Hprev.
  - rewrite Hhd, <- Hnb'. apply sorted_nth_le; [exact Hs|lia|lia].
  - intros Hlt. destruct kb as [|k]; [rewrite Hhd, Hnb' in Hlt; lia|].
    exists k. split; [lia|]. split; [exact Hnb'|].
    intros t Ht. apply Hprev; [exact Ht|lia|exact Hnb'].
  - intros Heq t k Ht Hc. apply (covers_after_head Hs) in Hc. lia.
Qed.

Lemma run_boundary_is_last_trigger_witness :
  light_trig second_run_log = None
  /\ get_event_dividers second_run_log = Ok (Some ([0; 4; 6], []))
  /\ 3 <= 4
  /\ (forall t, 3 <= t <= 4 -> trigger_at (packets second_run_log) t = true)
  /\ trigger_at (packets second_run_log) (4 + 1) = false
  /\ (exists k : nat, (S k < length [0; 4; 6])%nat /\ nth k [0; 4; 6] 0 = 4)
  /\ (forall t, 3 <= t < 4 -> ~ In t [0; 4; 6])
  /\ (forall (t : Z) (k : nat),
        3 <= t < 4 -> (S k < length [0; 4; 6])%nat -> nth (S k) [0; 4; 6] 0 = 4 ->
        covers [0; 4; 6] k t)
  /\ hd 0 [0; 4; 6] < 4
  /\ exists k : nat,
       (S k < length [0; 4; 6])%nat /\ nth (S k) [0; 4; 6] 0 = 4
       /\ forall t, 3 <= t < 4 -> covers [0; 4; 6] k t.
Proof.
  assert (Hrun : forall t, 3 <= t <= 4 ->
                   trigger_at (packets second_run_log) t = true).
  { intros t Ht. assert (E : t = 3 \/ t = 4) by lia.
    destruct E as [->| ->]; reflexivity. }
  assert (Hhd : hd 0 [0; 4; 6] < 4) by (simpl; lia).
  split; [reflexivity|]. split; [reflexivity|]. split; [lia|].
  split; [exact Hrun|]. split; [reflexivity|].
  destruct (@run_boundary_is_last_trigger second_run_log [0; 4; 6] [] 3 4
              eq_refl eq_refl ltac:(lia) Hrun eq_refl)
    as [H1 [H2 [H3 [_ [H5 _]]]]].
  split; [exact H1|]. split; [exact H2|]. split; [exact H3|].
  split; [exact Hhd|exact (H5 Hhd)].
Defined.

(** ** Merging close light triggers *)

Lemma select_merge_mask (ts idx : list Z) (t0 : Z) :
  length idx = length ts ->
  np.select (merge_mask_of (t0 :: ts)) idx = boundaries_after t0 (combine ts idx).
Proof.
  revert idx t0; induction ts as [|t1 ts IH]; intros idx t0 H.
  - destruct idx; [reflexivity|discriminate].
  - destruct idx as [|i idx]; [discriminate|].
    injection H as H.
    change (np.select ((200 <? t1 - t0) :: merge_mask_of (t1 :: ts)) (i :: idx)
            = boundaries_after t0 ((t1, i) :: combine ts idx)).
    cbn [np.select boundaries_after].
    rewrite (IH idx t1 H), Z.ltb_antisym.
    destruct (t1 - t0 <=? 200); reflexivity.
Qed.

Lemma select_merged_boundaries (ts idx : list Z) :
  length idx = length ts ->
  np.select (true :: merge_mask_of ts) idx = merged_boundaries ts idx.
Proof.
  intros H. unfold merged_boundaries.
  destruct ts as [|t0 ts]; destruct idx as [|i0 idx]; try discriminate;
    [reflexivity|].
  injection H as H. cbn [np.select combine].
  now rewrite select_merge_mask.
Qed.

Lemma boundaries_after_apart (ts idx : list Z) (t0 : Z) :
  nondecreasing (t0 :: ts) ->
  boundaries_after t0 (combine ts idx) = boundaries_apart t0 (combine ts idx).
Proof.
  unfold nondecreasing. revert idx t0.
  induction ts as [|t1 ts IH]; intros idx t0 Hs; [reflexivity|].
  destruct idx as [|i idx]; [reflexivity|].
  inversion Hs as [|? ? Hs' F]; subst.
  assert (Hle : t0 <= t1).
  { rewrite Forall_forall in F. apply F. now left. }
  cbn [combine boundaries_after boundaries_apart].
  rewrite (IH idx t1 Hs'), Z.abs_eq by lia. reflexivity.
Qed.

(** The claim fails when a light trigger steps back in time: the matched
    triggers at 1000 and at 100 are 900 ticks apart, yet the second adds
    no boundary, where the merge of the specification has one for each. *)
Lemma reversed_light_triggers_merge :
  light_matches back_in_time_log [lig 1000; lig 100]
  = Ok ([1000; 100], [0; 1], [2; 0])
  /\ 201 <= Z.abs (100 - 1000)
  /\ get_event_dividers back_in_time_log = Ok (Some ([2; 4], [0; 2]))
  /\ claimed_boundaries [1000; 100] [2; 0] ++ [len (packets back_in_time_log)]
     = [2; 0; 4]
  /\ get_event_dividers back_in_time_log
     <> Ok (Some (claimed_boundaries [1000; 100] [2; 0]
                    ++ [len (packets back_in_time_log)],
                  claimed_boundaries [1000; 100] [0; 1]
                    ++ [len [lig 1000; lig 100]])).
Proof.
  split; [reflexivity|]. split; [simpl; lia|]. split; [reflexivity|].
  split; [reflexivity|]. discriminate.
Qed.

(** C7, amended.  With light data, the event and light boundaries are
    those of the one-pass merge on signed differences: a matched trigger
    whose sync timestamp minus that of the matched trigger before it (in
    light-index order) is at most 200 ticks, a negative difference
    included, adds no boundary; one whose difference is 201 ticks or more
    adds its index as a boundary.  When the matched sync timestamps are in
    non-decreasing order this is the merge of the specification: within
    200 ticks of each other merged, 201 or more apart split. *)
Theorem light_triggers_merge_within_200 :
  forall (d : datalog) (lt : list light_trigger) (ts il ic : list Z),
    light_trig d = Some lt ->
    np.any (trigger_mask_of (packets d)) = true ->
    light_matches d lt = Ok (ts, il, ic) ->
    ts <> [] ->
    get_event_dividers d
    = Ok (Some (merged_boundaries ts ic ++ [len (packets d)],
                merged_boundaries ts il ++ [len lt]))
    /\ (forall (previous t i : Z) (rest : list (Z * Z)),
          t - previous <= 200 ->
          boundaries_after previous ((t, i) :: rest) = boundaries_after t rest)
    /\ (forall (previous t i : Z) (rest : list (Z * Z)),
          201 <= t - previous ->
          boundaries_after previous ((t, i) :: rest) = i :: boundaries_after t rest)
    /\ (nondecreasing ts ->
        get_event_dividers d
        = Ok (Some (claimed_boundaries ts ic ++ [len (packets d)],
                    claimed_boundaries ts il ++ [len lt]))).
Proof.
  intros d lt ts il ic HL HA M Hts.
  destruct (light_matches_lengths d lt M) as [Hil Hic].
  assert (G : get_event_dividers d
            = Ok (Some (merged_boundaries ts ic ++ [len (packets d)],
                        merged_boundaries ts il ++ [len lt]))).
  { rewrite (get_event_dividers_light d HL HA), M. cbn [bind].
    rewrite merge_matches_Ok by assumption.
    now rewrite !select_merged_boundaries by assumption. }
  split; [exact G|]. split; [|split].
  - intros previous t i rest H. cbn [boundaries_after].
    destruct (t - previous <=? 200) eqn:E; [reflexivity|].
    apply Z.leb_gt in E. lia.
  - intros previous t i rest H. cbn [boundaries_after].
    destruct (t - previous <=? 200) eqn:E; [|reflexivity].
    apply Z.leb_le in E. lia.
  - intros Hs. rewrite G. unfold merged_boundaries, claimed_boundaries.
    destruct ts as [|t0 ts]; [congruence|].
    destruct ic as [|c0 ic]; [discriminate|].
    destruct il as [|l0 il]; [discriminate|].
    cbn [combine]. now rewrite !boundaries_after_apart by exact Hs.
Qed.

(** A gap of 200 ticks: one event.  A gap of 201 ticks: two. *)
Example gap_200_merges :
  get_event_dividers (gap_log 200) = Ok (Some ([0; 4], [0; 2])).
Proof. reflexivity. Qed.

Example gap_201_splits :
  get_event_dividers (gap_log 201) = Ok (Some ([0; 2; 4], [0; 1; 2])).
Proof. reflexivity. Qed.

Lemma light_triggers_merge_within_200_witness :
  light_trig (gap_log 201) = Some [lig 100; lig 301]
  /\ np.any (trigger_mask_of (packets (gap_log 201))) = true
  /\ light_matches (gap_log 201) [lig 100; lig 301] = Ok ([100; 301], [0; 1], [0; 2])
  /\ [100; 301] <> []
  /\ nondecreasing [100; 301]
  /\ get_event_dividers (gap_log 201)
     = Ok (Some (merged_boundaries [100; 301] [0; 2] ++ [len (packets (gap_log 201))],
                 merged_boundaries [100; 301] [0; 1] ++ [len [lig 100; lig 301]]))
  /\ get_event_dividers (gap_log 201)
     = Ok (Some (claimed_boundaries [100; 301] [0; 2] ++ [len (packets (gap_log 201))],
                 claimed_boundaries [100; 301] [0; 1] ++ [len [lig 100; lig 301]])).
Proof.
  assert (Hs : nondecreasing [100; 301]) by (repeat constructor; lia).
  assert (Hne : [100; 301] <> []) by discriminate.
  split; [reflexivity|]. split; [reflexivity|]. split; [reflexivity|].
  split; [exact Hne|]. split; [exact Hs|].
  destruct (@light_triggers_merge_within_200 (gap_log 201) [lig 100; lig 301]
              [100; 301] [0; 1] [0; 2] eq_refl eq_refl eq_refl Hne)
    as [H1 [_ [_ H2]]].
  split; [exact H1|exact (H2 Hs)].
Defined.

(** ** Looking for the next cool event *)

Lemma range_forward (start stop : Z) :
  np.range start stop 1
  = map (fun k => start + Z.of_nat k * 1) (seq 0 (Z.to_nat (stop - start))).
Proof.
  unfold np.range. change (0 <? 1) with true. cbv iota.
  rewrite Z.div_1_r. do 3 f_equal. lia.
Qed.

Lemma range_backward (start stop : Z) :
  np.range start stop (-1)
  = map (fun k => start + Z.of_nat k * (-1)) (seq 0 (Z.to_nat (start - stop))).
Proof.
  unfold np.range. change (0 <? -1) with false. cbv iota.
  change (- (-1)) with 1. rewrite Z.div_1_r. do 3 f_equal. lia.
Qed.

Section Scan.

Variables (d : datalog) (ev : list Z) (threshold : option Z).
Hypothesis entries_nonneg : forall x, In x ev -> 0 <= x.

Variable f : nat -> Z.

Lemma scan_step (i : Z) (ids : list Z) :
  0 <= i -> i + 1 < len ev ->
  scan_cool ev (packets d) threshold (i :: ids)
  = if cool_at d ev threshold i then Ok (value i)
    else scan_cool ev (packets d) threshold ids.
Proof.
  intros H0 H1. cbn [scan_cool].
  rewrite (getitem_inside _ 0) by lia. cbn [bind].
  rewrite (getitem_inside _ 0) by lia. cbn [bind].
  unfold cool_at. rewrite slice_raw_range; [reflexivity| |].
  - apply entries_nonneg, nth_In. unfold len in H1. lia.
  - apply entries_nonneg, nth_In. unfold len in H1. lia.
Qed.

(** The loop over the ids [f k0], [f (k0+1)], ..., all of them ids of
    events: it stops at the first cool one. *)
Lemma scan_cool_first (n k0 : nat) :
  (forall k : nat, (k0 <= k < k0 + n)%nat -> 0 <= f k /\ f k + 1 < len ev) ->
  (exists k : nat,
      (k0 <= k < k0 + n)%nat
      /\ scan_cool ev (packets d) threshold (map f (seq k0 n)) = Ok (value (f k))
      /\ cool_at d ev threshold (f k) = true
      /\ forall k' : nat, (k0 <= k' < k)%nat -> cool_at d ev threshold (f k') = false)
  \/ (scan_cool ev (packets d) threshold (map f (seq k0 n)) = Ok no_update
      /\ forall k : nat, (k0 <= k < k0 + n)%nat -> cool_at d ev threshold (f k) = false).
Proof.
  revert k0; induction n as [|n IH]; intros k0 Hv.
  - right. split; [reflexivity|]. intros k Hk. lia.
  - cbn [seq map]. destruct (Hv k0 ltac:(lia)) as [H0 H1].
    rewrite scan_step by assumption.
    destruct (cool_at d ev threshold (f k0)) eqn:C.
    + left. exists k0. split; [lia|]. split; [reflexivity|]. split; [exact C|].
      intros k' Hk'. lia.
    + destruct (IH (S k0)) as [[k [Hk [Hr [Hc Hb]]]]|[Hr Hb]].
      * intros k Hk. apply Hv. lia.
      * left. exists k. split; [lia|]. split; [exact Hr|]. split; [exact Hc|].
        intros k' Hk'. destruct (Nat.eq_dec k' k0) as [->|Hne]; [exact C|].
        apply Hb. lia.
      * right. split; [exact Hr|]. intros k Hk.
        destruct (Nat.eq_dec k k0) as [->|Hne]; [exact C|].
        apply Hb. lia.
Qed.

End Scan.

(** The claim fails for a start id beyond the table: the scan towards
    the front begins at an id that is no event and raises. *)
Lemma find_cool_event_beyond_table_raises :
  get_event_dividers scenario_log = Ok (Some ([0; 2; 5; 7], []))
  /\ find_cool_event 4 scenario_log None (-1) = Raise IndexError
  /\ forall r : dash Z, find_cool_event 4 scenario_log None (-1) <> Ok r.
Proof.
  split; [reflexivity|]. split; [reflexivity|].
  intros r. discriminate.
Qed.

(** C6, amended.  For a start id from which the scan meets ids of events
    only (at least -1 when scanning to the back, at most
    [len(boundaries) - 1] when scanning to the front), [find_cool_event]
    returns the first id after the start, in the direction of the scan,
    whose event is cool; when no scanned event is cool it returns
    [no_update], and the click callbacks leave the shown id as it is. *)
Theorem find_cool_event_first_match :
  forall (d : datalog) (ev lv : list Z) (event_id : Z) (threshold : option Z)
         (direction : Z),
    get_event_dividers d = Ok (Some (ev, lv)) ->
    (direction = 1 /\ -1 <= event_id)
    \/ (direction = -1 /\ event_id <= len ev - 1) ->
    (exists m : Z,
        find_cool_event event_id d threshold direction = Ok (value m)
        /\ 0 <= m <= len ev - 2
        /\ 0 < (m - event_id) * direction
        /\ cool_at d ev threshold m = true
        /\ forall j : Z,
             0 < (j - event_id) * direction -> 0 < (m - j) * direction ->
             cool_at d ev threshold j = false)
    \/ (find_cool_event event_id d threshold direction = Ok no_update
        /\ (forall j : Z,
              0 <= j <= len ev - 2 -> 0 < (j - event_id) * direction ->
              cool_at d ev threshold j = false)
        /\ forall shown : Z,
             (direction = 1 -> next_cool_click shown event_id d threshold = Ok shown)
             /\ (direction = -1 ->
                 prev_cool_click shown event_id d threshold = Ok shown)).
Proof.
  intros d ev lv event_id threshold direction G H.
  destruct (dividers_entries d G) as [_ [HP _]].
  unfold next_cool_click, prev_cool_click, find_cool_event.
  rewrite G. cbn [bind unpack fst].
  destruct H as [[-> H]|[-> H]].
  - change (1 =? 0) with false. change (1 =? -1) with false. cbv iota.
    rewrite range_forward.
    set (f := fun k : nat => event_id + 1 + Z.of_nat k * 1).
    set (n := Z.to_nat (len ev - 1 - (event_id + 1))).
    destruct (@scan_cool_first d ev threshold HP f n 0)
      as [[k [Hk [Hr [Hc Hb]]]]|[Hr Hb]].
    + intros k Hk. unfold f, n in *. lia.
    + left. exists (f k). split; [exact Hr|]. unfold f, n in *.
      split; [lia|]. split; [lia|]. split; [exact Hc|].
      intros j H1 H2.
      replace j with (event_id + 1 + Z.of_nat (Z.to_nat (j - event_id - 1)) * 1)
        by lia.
      apply Hb. lia.
    + right. split; [exact Hr|]. split.
      * intros j H1 H2.
        replace j with (f (Z.to_nat (j - event_id - 1))) by (unfold f; lia).
        apply Hb. unfold n. lia.
      * intros shown. split; [|discriminate]. intros _.
        rewrite Hr. reflexivity.
  - change (-1 =? 0) with false. change (-1 =? -1) with true. cbv iota.
    rewrite range_backward.
    set (f := fun k : nat => event_id + -1 + Z.of_nat k * -1).
    set (n := Z.to_nat (event_id + -1 - -1)).
    destruct (@scan_cool_first d ev threshold HP f n 0)
      as [[k [Hk [Hr [Hc Hb]]]]|[Hr Hb]].
    + intros k Hk. unfold f, n in *. lia.
    + left. exists (f k). split; [exact Hr|]. unfold f, n in *.
      split; [lia|]. split; [lia|]. split; [exact Hc|].
      intros j H1 H2.
      replace j with (event_id + -1 + Z.of_nat (Z.to_nat (event_id - 1 - j)) * -1)
        by lia.
      apply Hb. lia.
    + right. split; [exact Hr|]. split.
      * intros j H1 H2.
        replace j with (f (Z.to_nat (event_id - 1 - j))) by (unfold f; lia).
        apply Hb. unfold n. lia.
      * intros shown. split; [discriminate|]. intros _.
        rewrite Hr. reflexivity.
Qed.

(** From event 0 to the back, event 1 is the first cool one. *)
Lemma find_cool_event_first_match_witness :
  get_event_dividers cool_log = Ok (Some ([0; 2; 4; 6], []))
  /\ ((1 = 1 /\ -1 <= 0) \/ (1 = -1 /\ 0 <= len [0; 2; 4; 6] - 1))
  /\ find_cool_event 0 cool_log None 1 = Ok (value 1)
  /\ ((exists m : Z,
          find_cool_event 0 cool_log None 1 = Ok (value m)
          /\ 0 <= m <= len [0; 2; 4; 6] - 2
          /\ 0 < (m - 0) * 1
          /\ cool_at cool_log [0; 2; 4; 6] None m = true
          /\ forall j : Z,
               0 < (j - 0) * 1 -> 0 < (m - j) * 1 ->
               cool_at cool_log [0; 2; 4; 6] None j = false)
      \/ (find_cool_event 0 cool_log None 1 = Ok no_update
          /\ (forall j : Z,
                0 <= j <= len [0; 2; 4; 6] - 2 -> 0 < (j - 0) * 1 ->
                cool_at cool_log [0; 2; 4; 6] None j = false)
          /\ forall shown : Z,
               (1 = 1 -> next_cool_click shown 0 cool_log None = Ok shown)
               /\ (1 = -1 -> prev_cool_click shown 0 cool_log None = Ok shown))).
Proof.
  split; [reflexivity|]. split; [left; lia|]. split; [reflexivity|].
  apply (@find_cool_event_first_match cool_log [0; 2; 4; 6] [] 0 None 1);
    [reflexivity|left; lia].
Defined.

(** ** Order of the boundaries *)

Lemma select_sorted (mask : list bool) (a : list Z) :
  strictly_increasing a -> strictly_increasing (np.select mask a).
Proof.
  unfold strictly_increasing. intros Hs. revert mask.
  induction Hs as [|x a Hs IH F]; intros [|b mask]; cbn [np.select];
    try constructor.
  destruct b; [|apply IH].
  constructor; [apply IH|].
  rewrite Forall_forall in F |- *. intros y Hy. apply F.
  eapply select_incl; exact Hy.
Qed.

Lemma select_length_eq (A B : Type) (mask : list bool) (a : list A) (b : list B) :
  length a = length b ->
  length (np.select mask a) = length (np.select mask b).
Proof.
  revert a b; induction mask as [|m mask IH]; intros [|x a] [|y b] H;
    try discriminate; try reflexivity.
  injection H as H. cbn [np.select].
  destruct m; cbn [length]; now rewrite (IH a b H).
Qed.

Lemma map_sorted (g : Z -> Z) (l : list Z) :
  strictly_increasing l ->
  (forall v w, In v l -> In w l -> v < w -> g v < g w) ->
  strictly_increasing (map g l).
Proof.
  unfold strictly_increasing. intros Hs.
  induction Hs as [|x l Hs IH F]; intros Hg; cbn [map]; constructor.
  - apply IH. intros v w Hv Hw. apply Hg; now right.
  - rewrite Forall_forall in F |- *. intros y Hy.
    apply in_map_iff in Hy. destruct Hy as [v [<- Hv]].
    apply Hg; [now left|now right|now apply F].
Qed.

(** *** [np.unique] *)

Lemma insert_unique_In (v x : Z) (s : list Z) :
  In x (np.insert_unique v s) <-> x = v \/ In x s.
Proof.
  induction s as [|y s IH]; cbn [np.insert_unique].
  - simpl. intuition.
  - destruct (v <? y); [simpl; intuition|].
    destruct (v =? y) eqn:E.
    + apply Z.eqb_eq in E. subst. simpl. intuition.
    + simpl. rewrite IH. intuition.
Qed.

Lemma insert_unique_sorted (v : Z) (s : list Z) :
  strictly_increasing s -> strictly_increasing (np.insert_unique v s).
Proof.
  unfold strictly_increasing. intros Hs.
  induction Hs as [|y s Hs IH F]; cbn [np.insert_unique].
  - constructor; constructor.
  - destruct (v <? y) eqn:E1.
    + apply Z.ltb_lt in E1. constructor; [now constructor|].
      constructor; [exact E1|].
      rewrite Forall_forall in F |- *. intros z Hz. specialize (F z Hz). lia.
    + destruct (v =? y) eqn:E2; [now constructor|].
      apply Z.ltb_ge in E1. apply Z.eqb_neq in E2.
      constructor; [exact IH|].
      rewrite Forall_forall in F |- *. intros z Hz.
      apply insert_unique_In in Hz. destruct Hz as [->|Hz]; [lia|now apply F].
Qed.

Lemma unique_In (a : list Z) (x : Z) : In x (np.unique a) <-> In x a.
Proof.
  unfold np.unique. induction a as [|y a IH]; cbn [fold_right]; [tauto|].
  rewrite insert_unique_In, IH. simpl. intuition.
Qed.

Lemma unique_sorted (a : list Z) : strictly_increasing (np.unique a).
Proof.
  unfold np.unique. induction a as [|y a IH]; cbn [fold_right].
  - constructor.
  - now apply insert_unique_sorted.
Qed.

Lemma isin_In (v : Z) (a : list Z) : np.isin v a = true <-> In v a.
Proof.
  unfold np.isin. rewrite existsb_exists. split.
  - intros [x [Hx E]]. apply Z.eqb_eq in E. now subst.
  - intros H. exists v. split; [exact H|apply Z.eqb_refl].
Qed.

(** *** First occurrences *)

Lemma first_index_lt (v : Z) (a : list Z) :
  In v a -> (np.first_index v a < length a)%nat.
Proof.
  induction a as [|x a IH]; [intros []|].
  cbn [np.first_index length]. destruct (x =? v) eqn:E; [lia|].
  apply Z.eqb_neq in E. intros [H|H]; [congruence|].
  specialize (IH H). lia.
Qed.

Lemma first_index_mono (a : list Z) (v w : Z) :
  nondecreasing a -> In v a -> In w a -> v < w ->
  (np.first_index v a < np.first_index w a)%nat.
Proof.
  unfold nondecreasing. intros Hs.
  induction Hs as [|x a Hs IH F]; [intros []|].
  intros Hv Hw Hlt. rewrite Forall_forall in F.
  cbn [np.first_index].
  destruct (x =? w) eqn:Ew.
  - apply Z.eqb_eq in Ew. subst w. exfalso.
    destruct Hv as [Hv|Hv]; [lia|]. specialize (F v Hv). lia.
  - apply Z.eqb_neq in Ew. destruct Hw as [Hw|Hw]; [congruence|].
    destruct (x =? v) eqn:Ev; [lia|].
    apply Z.eqb_neq in Ev. destruct Hv as [Hv|Hv]; [congruence|].
    specialize (IH Hv Hw Hlt). lia.
Qed.

(** *** [np.argsort] on an increasing array *)

Lemma insert_keys_sorted (l idx : list Z) :
  strictly_increasing l ->
  fold_right np.insert_key [] (combine l idx) = combine l idx.
Proof.
  unfold strictly_increasing. intros Hs. revert idx.
  induction Hs as [|x l Hs IH F]; intros idx; [reflexivity|].
  destruct idx as [|i idx]; [reflexivity|].
  cbn [combine fold_right]. rewrite IH.
  destruct l as [|y l]; [reflexivity|].
  destruct idx as [|j idx]; [reflexivity|].
  cbn [combine np.insert_key fst].
  assert (x < y) by (rewrite Forall_forall in F; apply F; now left).
  destruct (x <=? y) eqn:E; [reflexivity|].
  apply Z.leb_gt in E. lia.
Qed.

Lemma map_snd_combine (l idx : list Z) :
  length l = length idx -> map snd (combine l idx) = idx.
Proof.
  revert idx; induction l as [|x l IH]; intros [|i idx] H;
    try discriminate; [reflexivity|].
  injection H as H. cbn [combine map snd]. now rewrite IH.
Qed.

Lemma argsort_sorted (l : list Z) :
  strictly_increasing l -> np.argsort l = np.arange (length l).
Proof.
  intros Hs. unfold np.argsort. rewrite insert_keys_sorted by exact Hs.
  apply map_snd_combine. unfold np.arange. now rewrite length_map, length_seq.
Qed.

(** *** Integer-array indexing *)

Lemma take_nth (a idx : list Z) :
  (forall i, In i idx -> 0 <= i < len a) ->
  np.take a idx = Ok (map (fun i => nth (Z.to_nat i) a 0) idx).
Proof.
  induction idx as [|i idx IH]; intros H; [reflexivity|].
  cbn [np.take map].
  rewrite (getitem_inside _ 0) by (apply H; now left). cbn [bind].
  rewrite IH by (intros j Hj; apply H; now right). reflexivity.
Qed.

Lemma map_nth_seq (a pre : list Z) :
  map (fun i => nth (Z.to_nat i) (pre ++ a) 0)
      (map Z.of_nat (seq (length pre) (length a))) = a.
Proof.
  revert pre; induction a as [|x a IH]; intros pre; [reflexivity|].
  cbn [length seq map]. rewrite Nat2Z.id, app_nth2, Nat.sub_diag by lia.
  cbn [nth]. f_equal.
  specialize (IH (pre ++ [x])).
  rewrite <- app_assoc, length_app in IH. cbn [app length] in IH.
  rewrite Nat.add_1_r in IH. exact IH.
Qed.

Lemma take_arange (a : list Z) (n : nat) :
  n = length a -> np.take a (np.arange n) = Ok a.
Proof.
  intros ->. rewrite take_nth.
  - f_equal. apply (map_nth_seq a []).
  - intros i Hi. unfold np.arange in Hi. apply in_map_iff in Hi.
    destruct Hi as [k [<- Hk]]. apply in_seq in Hk. unfold len. lia.
Qed.

Lemma nth_sorted_map (tp idx : list Z) :
  strictly_increasing tp -> strictly_increasing idx ->
  (forall i, In i idx -> 0 <= i < len tp) ->
  strictly_increasing (map (fun i => nth (Z.to_nat i) tp 0) idx).
Proof.
  intros Ht Hi Hv. apply map_sorted; [exact Hi|].
  intros v w Hv' Hw' Hlt.
  pose proof (Hv v Hv'). pose proof (Hv w Hw'). unfold len in *.
  apply sorted_nth_lt; [exact Ht|lia|lia].
Qed.

(** *** The boundaries of the light branch *)

Lemma dividers_light_inv (d : datalog) (lt : list light_trigger) (ev lv : list Z) :
  light_trig d = Some lt ->
  get_event_dividers d = Ok (Some (ev, lv)) ->
  exists ts il ic : list Z,
    light_matches d lt = Ok (ts, il, ic)
    /\ ts <> []
    /\ ev = np.select (true :: merge_mask_of ts) ic ++ [len (packets d)]
    /\ lv = np.select (true :: merge_mask_of ts) il ++ [len lt].
Proof.
  intros HL H.
  destruct (np.any (trigger_mask_of (packets d))) eqn:HA;
    [|rewrite get_event_dividers_none in H by exact HA; discriminate].
  rewrite (get_event_dividers_light d HL HA) in H.
  destruct (light_matches d lt) as [[[ts il] ic]|] eqn:M; [|discriminate].
  cbn [bind] in H.
  destruct (light_matches_lengths d lt M) as [Hil Hic].
  destruct ts as [|t0 ts].
  { rewrite merge_matches_empty in H by exact Hil. discriminate. }
  rewrite merge_matches_Ok in H by (auto; discriminate).
  injection H as <- <-.
  exists (t0 :: ts), il, ic. repeat split; discriminate.
Qed.

(** When both logs are in time order, the matched packet indices come
    out in increasing order. *)
Lemma light_matches_ordered (d : datalog) (lt : list light_trigger)
    (ts il ic : list Z) :
  nondecreasing (map ts_sync lt) ->
  nondecreasing
    (map timestamp (filter (fun p => packet_type p =? 7) (packets d))) ->
  light_matches d lt = Ok (ts, il, ic) ->
  strictly_increasing ic.
Proof.
  intros Ha Hb M. apply light_matches_inv in M.
  destruct M as [trig [ic0 M]]. cbv zeta in M.
  destruct M as [Et [E0 [_ [E2 _]]]].
  unfold trigger_mask_of in Et. rewrite select_filter in Et. subst trig.
  set (a := map ts_sync lt) in *.
  set (b := map timestamp (filter (fun p => packet_type p =? 7) (packets d))) in *.
  set (common := filter (fun v => np.isin v b) (np.unique a)) in *.
  set (tp := np.nonzero (trigger_mask_of (packets d))) in *.
  assert (Hc : strictly_increasing common).
  { unfold common. rewrite <- select_filter. apply select_sorted, unique_sorted. }
  assert (Hin : forall v, In v common -> In v a /\ In v b).
  { intros v Hv. unfold common in Hv. apply filter_In in Hv.
    destruct Hv as [H1 H2]. split; [now apply unique_In|now apply isin_In]. }
  assert (Hlen : length b = length tp).
  { unfold b, tp, np.nonzero, trigger_mask_of.
    now rewrite length_map, nonzero_from_length. }
  rewrite argsort_sorted in E2.
  2:{ apply map_sorted; [exact Hc|]. intros v w Hv Hw Hlt.
      apply Hin in Hv, Hw.
      pose proof (@first_index_mono a v w Ha (proj1 Hv) (proj1 Hw) Hlt). lia. }
  rewrite take_arange in E2.
  2:{ apply take_length in E0. rewrite length_map in *. congruence. }
  injection E2 as <-.
  rewrite take_nth in E0.
  2:{ intros i Hi. apply in_map_iff in Hi. destruct Hi as [v [<- Hv]].
      apply Hin in Hv. destruct Hv as [_ Hv].
      apply first_index_lt in Hv. unfold len. lia. }
  injection E0 as <-.
  apply nth_sorted_map.
  - apply trigger_packets_sorted.
  - apply map_sorted; [exact Hc|]. intros v w Hv Hw Hlt.
    apply Hin in Hv, Hw.
    pose proof (@first_index_mono b v w Hb (proj2 Hv) (proj2 Hw) Hlt). lia.
  - intros i Hi. apply in_map_iff in Hi. destruct Hi as [v [<- Hv]].
    apply Hin in Hv. destruct Hv as [_ Hv].
    apply first_index_lt in Hv. unfold len. lia.
Qed.

(** The claim fails when the light triggers are not in time order: the
    event boundaries follow the light index and 2 comes before 1. *)
Lemma unordered_light_dividers_not_increasing :
  get_event_dividers unordered_light_log = Ok (Some ([2; 1; 3], [0; 2; 3]))
  /\ ~ strictly_increasing [2; 1; 3].
Proof.
  split; [reflexivity|].
  intros H. inversion H as [|? ? _ F]; subst.
  inversion F as [|? ? H1 _]; subst. lia.
Qed.

(** C2, amended.  When segmentation succeeds: without light data the
    event boundaries are strictly increasing; with light data the light
    boundaries are as many as the event boundaries, and the event
    boundaries are strictly increasing provided the sync timestamps of the
    light triggers and the timestamps of the trigger packets are each in
    non-decreasing order. *)
Theorem dividers_increasing_and_paired :
  forall (d : datalog) (ev lv : list Z),
    get_event_dividers d = Ok (Some (ev, lv)) ->
    (light_trig d = None -> strictly_increasing ev)
    /\ (forall lt : list light_trigger,
          light_trig d = Some lt ->
          length lv = length ev
          /\ (nondecreasing (map ts_sync lt) ->
              nondecreasing
                (map timestamp
                     (filter (fun p => packet_type p =? 7) (packets d))) ->
              strictly_increasing ev)).
Proof.
  intros d ev lv G. split.
  - intros HL. destruct (no_light_inv d HL G) as [-> _].
    apply no_light_sorted.
  - intros lt HL.
    destruct (dividers_light_inv d HL G) as [ts [il [ic [M [Hts [-> ->]]]]]].
    destruct (light_matches_lengths d lt M) as [Hil Hic].
    split.
    + rewrite !length_app. cbn [length]. f_equal.
      apply select_length_eq. congruence.
    + intros Ha Hb. apply sorted_snoc.
      * apply select_sorted. eapply light_matches_ordered; eauto.
      * intros y Hy. apply select_incl in Hy.
        apply (light_matches_packets d lt M) in Hy.
        apply trigger_at_inside in Hy. lia.
Qed.

Lemma dividers_increasing_and_paired_witness :
  get_event_dividers (gap_log 201) = Ok (Some ([0; 2; 4], [0; 1; 2]))
  /\ light_trig (gap_log 201) = Some [lig 100; lig 301]
  /\ nondecreasing (map ts_sync [lig 100; lig 301])
  /\ nondecreasing
       (map timestamp
            (filter (fun p => packet_type p =? 7) (packets (gap_log 201))))
  /\ length [0; 1; 2] = length [0; 2; 4]
  /\ strictly_increasing [0; 2; 4].
Proof.
  assert (Ha : nondecreasing (map ts_sync [lig 100; lig 301])).
  { simpl. repeat constructor. lia. }
  assert (Hb : nondecreasing
                 (map timestamp
                      (filter (fun p => packet_type p =? 7)
                              (packets (gap_log 201))))).
  { simpl. repeat constructor. lia. }
  split; [reflexivity|]. split; [reflexivity|].
  split; [exact Ha|]. split; [exact Hb|].
  destruct (@dividers_increasing_and_paired (gap_log 201) [0; 2; 4] [0; 1; 2]
              eq_refl) as [_ H].
  destruct (H [lig 100; lig 301] eq_refl) as [H1 H2].
  split; [exact H1|]. exact (H2 Ha Hb).
Defined.

(** * Further properties of the source *)

(** ** The shape of every boundary table *)

(** X1.  Whenever [get_event_dividers] returns a table, the table has at
    least two entries, its last entry is the number of packets, and every
    entry before the last is the index of a trigger packet. *)
Theorem dividers_table_shape :
  forall (d : datalog) (ev lv : list Z),
    get_event_dividers d = Ok (Some (ev, lv)) ->
    (2 <= length ev)%nat
    /\ last ev 0 = len (packets d)
    /\ forall k : nat, (S k < length ev)%nat ->
         trigger_at (packets d) (nth k ev 0) = true
         /\ 0 <= nth k ev 0 < len (packets d).
Proof.
  intros d ev lv G.
  destruct (dividers_shape d G) as [body [-> [NE HB]]].
  split; [|split].
  - rewrite length_app. destruct body; [congruence|simpl; lia].
  - apply last_last.
  - intros k Hk. rewrite length_app in Hk. simpl in Hk.
    rewrite app_nth1 by lia.
    assert (HT : trigger_at (packets d) (nth k body 0) = true)
      by (apply HB, nth_In; lia).
    split; [exact HT|now apply trigger_at_inside].
Qed.

Lemma dividers_table_shape_witness :
  get_event_dividers (gap_log 201) = Ok (Some ([0; 2; 4], [0; 1; 2]))
  /\ (2 <= length [0; 2; 4])%nat
  /\ last [0; 2; 4] 0 = len (packets (gap_log 201)).
Proof.
  split; [reflexivity|].
  destruct (@dividers_table_shape (gap_log 201) [0; 2; 4] [0; 1; 2] eq_refl)
    as [H1 [H2 _]].
  split; [exact H1|exact H2].
Defined.

Lemma dividers_len_ge_2 (d : datalog) (ev lv : list Z) :
  get_event_dividers d = Ok (Some (ev, lv)) -> 2 <= len ev.
Proof.
  intros G. destruct (dividers_shape d G) as [body [-> [NE _]]].
  unfold len. rewrite length_app. destruct body; [congruence|simpl; lia].
Qed.

(** ** Drawing an event whose id is in the table *)

Lemma raw_range_firstn (pk : list packet) (s e : Z) :
  0 <= s ->
  raw_range pk s e = firstn (Z.to_nat (e - s)) (skipn (Z.to_nat s) pk).
Proof.
  intros Hs. unfold raw_range, np.arange.
  rewrite (raw_range_from pk 0 e Hs). simpl Z.of_nat.
  rewrite Z.sub_0_r. do 2 f_equal. lia.
Qed.

Lemma skipn_nth_cons (A : Type) (l : list A) (n : nat) (dflt : A) :
  (n < length l)%nat -> skipn n l = nth n l dflt :: skipn (S n) l.
Proof.
  revert n; induction l as [|x l IH]; intros n H; [simpl in H; lia|].
  destruct n as [|n]; [reflexivity|].
  simpl in H. cbn [skipn nth]. apply IH. lia.
Qed.

Lemma raw_range_incl (pk : list packet) (s e : Z) (p : packet) :
  In p (raw_range pk s e) -> In p pk.
Proof.
  unfold raw_range. intros H. apply in_map_iff in H.
  destruct H as [[i q] [<- H]]. apply filter_In in H. destruct H as [H _].
  eapply in_combine_r; exact H.
Qed.

Lemma nth_map_inside (A B : Type) (f : A -> B) (l : list A) (n : nat)
    (da : A) (db : B) :
  (n < length l)%nat -> nth n (map f l) db = f (nth n l da).
Proof.
  revert n; induction l as [|x l IH]; intros n H; [simpl in H; lia|].
  destruct n as [|n]; [reflexivity|]. simpl in H. cbn [map nth].
  apply IH. lia.
Qed.

Lemma trigger_at_packet_type (pk : list packet) (t : Z) :
  trigger_at pk t = true -> packet_type (nth (Z.to_nat t) pk no_packet) = 7.
Proof.
  intros H. pose proof (trigger_at_inside _ _ H) as Hin.
  unfold trigger_at in H. apply andb_true_iff in H. destruct H as [_ H].
  unfold trigger_mask_of in H.
  rewrite (@nth_map_inside _ _ _ pk (Z.to_nat t) no_packet false) in H
    by (unfold len in Hin; lia).
  now apply Z.eqb_eq in H.
Qed.

(** What [draw_event] returns for an id from 0 to [len - 2] of a table
    of [get_event_dividers]. *)
Lemma draw_event_inside (d : datalog) (ev lv : list Z) (event_id : Z) :
  get_event_dividers d = Ok (Some (ev, lv)) ->
  0 <= event_id < len ev - 1 ->
  draw_event d ev event_id
  = Ok (mkHits
          (filter (fun p =>
                     timestamp p
                     - timestamp (nth (Z.to_nat (nth (Z.to_nat event_id) ev 0))
                                      (packets d) no_packet) <? 2000)
                  (raw_range (packets d) (nth (Z.to_nat event_id) ev 0)
                             (nth (Z.to_nat (event_id + 1)) ev 0)))
          (nth (Z.to_nat event_id) ev 0)
          (timestamp (nth (Z.to_nat (nth (Z.to_nat event_id) ev 0))
                          (packets d) no_packet))).
Proof.
  intros G Hid.
  destruct (dividers_entries d G) as [HT [HP _]].
  assert (Hs : trigger_at (packets d) (nth (Z.to_nat event_id) ev 0) = true).
  { apply HT. unfold len in Hid. lia. }
  apply trigger_at_inside in Hs.
  assert (He : 0 <= nth (Z.to_nat (event_id + 1)) ev 0).
  { apply HP. apply nth_In. unfold len in Hid. lia. }
  unfold draw_event.
  rewrite (getitem_inside _ 0) by lia. cbn [bind].
  rewrite (getitem_inside _ 0) by lia. cbn [bind].
  rewrite (getitem_inside _ no_packet) by lia. cbn [bind].
  rewrite select_filter, slice_raw_range by lia.
  reflexivity.
Qed.

(** X2.  For a table of [get_event_dividers] and an event id from 0 to
    [len - 2] whose span is not empty (always so without light data),
    the packets drawn start with the event's trigger packet: the packet at
    [boundary[id]] is never filtered out, so no such event is drawn
    empty. *)
Theorem drawn_event_starts_with_trigger :
  forall (d : datalog) (ev lv : list Z) (event_id : Z),
    get_event_dividers d = Ok (Some (ev, lv)) ->
    0 <= event_id < len ev - 1 ->
    light_trig d = None
    \/ nth (Z.to_nat event_id) ev 0 < nth (Z.to_nat (event_id + 1)) ev 0 ->
    exists (h : hits) (rest : list packet),
      draw_event d ev event_id = Ok h
      /\ event_packets h
         = nth (Z.to_nat (start_packet h)) (packets d) no_packet :: rest
      /\ start_packet h = nth (Z.to_nat event_id) ev 0
      /\ packet_type (nth (Z.to_nat (start_packet h)) (packets d) no_packet) = 7.
Proof.
  intros d ev lv id G Hid Hspan.
  destruct (dividers_entries d G) as [HT [HP _]].
  set (s := nth (Z.to_nat id) ev 0) in *.
  set (e := nth (Z.to_nat (id + 1)) ev 0) in *.
  assert (Hs : trigger_at (packets d) s = true).
  { apply HT. unfold len in Hid. lia. }
  assert (Hse : s < e).
  { destruct Hspan as [HL|H]; [|exact H].
    destruct (no_light_inv d HL G) as [-> _].
    unfold s, e. replace (Z.to_nat (id + 1)) with (S (Z.to_nat id)) by lia.
    apply sorted_nth_lt; [apply no_light_sorted|lia|unfold len in Hid |- *; lia]. }
  pose proof (trigger_at_inside _ _ Hs) as Hin.
  rewrite (draw_event_inside d G Hid). fold s e.
  rewrite raw_range_firstn by lia.
  rewrite (@skipn_nth_cons _ (packets d) (Z.to_nat s) no_packet)
    by (unfold len in Hin; lia).
  replace (Z.to_nat (e - s)) with (S (Z.to_nat (e - s - 1))) by lia.
  cbn [firstn filter]. rewrite Z.sub_diag. change (0 <? 2000) with true.
  cbv iota.
  eexists; eexists. split; [reflexivity|]. cbn [event_packets start_packet].
  split; [reflexivity|]. split; [reflexivity|].
  now apply trigger_at_packet_type.
Qed.

Lemma drawn_event_starts_with_trigger_witness :
  get_event_dividers buffer_log = Ok (Some ([0; 3; 5], []))
  /\ 0 <= 1 < len [0; 3; 5] - 1
  /\ light_trig buffer_log = None
  /\ exists (h : hits) (rest : list packet),
       draw_event buffer_log [0; 3; 5] 1 = Ok h
       /\ event_packets h
          = nth (Z.to_nat (start_packet h)) (packets buffer_log) no_packet :: rest
       /\ start_packet h = nth (Z.to_nat 1) [0; 3; 5] 0
       /\ packet_type
            (nth (Z.to_nat (start_packet h)) (packets buffer_log) no_packet) = 7.
Proof.
  split; [reflexivity|]. split; [unfold len; simpl; lia|]. split; [reflexivity|].
  apply (@drawn_event_starts_with_trigger buffer_log [0; 3; 5] [] 1);
    [reflexivity|unfold len; simpl; lia|left; reflexivity].
Defined.

(** ** Negative event ids *)

(** X3.  On a table of [get_event_dividers], an event id [i] with
    [-len <= i <= -2] is drawn as the event [len + i], counted from the
    end of the table, and the id [-1] raises [IndexError]: its start is
    the closing entry, which is the index of no packet. *)
Theorem draw_event_negative_id :
  forall (d : datalog) (ev lv : list Z),
    get_event_dividers d = Ok (Some (ev, lv)) ->
    (forall i : Z, - len ev <= i <= -2 ->
       draw_event d ev i = draw_event d ev (i + len ev))
    /\ draw_event d ev (-1) = Raise IndexError.
Proof.
  intros d ev lv G. pose proof (dividers_len_ge_2 d G) as L. split.
  - intros i Hi. unfold draw_event.
    rewrite (getitem_from_end ev (i := i)) by lia.
    rewrite (getitem_from_end ev (i := i + 1)) by lia.
    replace (i + 1 + len ev) with (i + len ev + 1) by lia. reflexivity.
  - destruct (dividers_entries d G) as [_ [_ HL]].
    unfold draw_event.
    rewrite getitem_from_end by lia.
    rewrite (getitem_inside _ 0) by lia. cbn [bind].
    replace (-1 + 1) with 0 by lia.
    rewrite (getitem_inside _ 0) by lia. cbn [bind].
    assert (E : nth (Z.to_nat (-1 + len ev)) ev 0 = len (packets d)).
    { rewrite <- HL. destruct (dividers_shape d G) as [body [-> _]].
      rewrite last_last. unfold len. rewrite length_app. cbn [length].
      rewrite app_nth2 by lia.
      replace (Z.to_nat (-1 + Z.of_nat (length body + 1)) - length body)%nat
        with 0%nat by lia. reflexivity. }
    rewrite E. rewrite getitem_beyond by lia. reflexivity.
Qed.

Lemma draw_event_negative_id_witness :
  get_event_dividers scenario_log = Ok (Some ([0; 2; 5; 7], []))
  /\ - len [0; 2; 5; 7] <= -3 <= -2
  /\ draw_event scenario_log [0; 2; 5; 7] (-3)
     = draw_event scenario_log [0; 2; 5; 7] (-3 + len [0; 2; 5; 7])
  /\ draw_event scenario_log [0; 2; 5; 7] (-1) = Raise IndexError.
Proof.
  split; [reflexivity|].
  assert (H : - len [0; 2; 5; 7] <= -3 <= -2) by (unfold len; simpl; lia).
  split; [exact H|].
  destruct (@draw_event_negative_id scenario_log [0; 2; 5; 7] [] eq_refl)
    as [H1 H2].
  split; [exact (H1 (-3) H)|exact H2].
Defined.

(** ** Typing an event id *)



(** X5.  The number [update_total_events] prints is [len - 2]: never
    negative (the test [len(event_dividers) < 2] is never true on a table
    of [get_event_dividers]), it is the largest id [draw_event] accepts,
    one less than the number of events, and the id an over-large typed
    number is moved to. *)
Theorem total_events_is_largest_id :
  forall (d : datalog) (ev lv : list Z) (modified_timestamp : Z),
    get_event_dividers d = Ok (Some (ev, lv)) ->
    update_total_events (Some modified_timestamp) d = Ok (len ev - 2)
    /\ 0 <= len ev - 2
    /\ (exists h : hits, draw_event d ev (len ev - 2) = Ok h)
    /\ draw_event d ev (len ev - 2 + 1) = Raise IndexError
    /\ update_event_id_click (len ev - 2 + 1) d = Ok (len ev - 2).
Proof.
  intros d ev lv ts G. pose proof (dividers_len_ge_2 d G) as L.
  split; [|split; [|split; [|split]]].
  - unfold update_total_events. rewrite G. cbn [bind unpack fst].
    destruct (len ev <? 2) eqn:E; [apply Z.ltb_lt in E; lia|reflexivity].
  - lia.
  - eexists. apply (draw_event_inside d G). lia.
  - apply draw_event_outside. left. lia.
  - unfold update_event_id_click. rewrite G. cbn [bind unpack fst].
    destruct (len ev - 1 <=? len ev - 2 + 1) eqn:E1; [|apply Z.leb_gt in E1; lia].
    destruct (len ev - 2 <? 0) eqn:E2; [apply Z.ltb_lt in E2; lia|reflexivity].
Qed.

Lemma total_events_is_largest_id_witness :
  get_event_dividers scenario_log = Ok (Some ([0; 2; 5; 7], []))
  /\ update_total_events (Some 1) scenario_log = Ok (len [0; 2; 5; 7] - 2)
  /\ draw_event scenario_log [0; 2; 5; 7] (len [0; 2; 5; 7] - 2 + 1)
     = Raise IndexError.
Proof.
  split; [reflexivity|].
  destruct (@total_events_is_largest_id scenario_log [0; 2; 5; 7] [] 1 eq_refl)
    as [H1 [_ [_ [H2 _]]]].
  split; [exact H1|exact H2].
Defined.

(** ** Scanning to the back and to the front *)

Lemma find_cool_event_forward (d : datalog) (ev lv : list Z) (e : Z)
    (threshold : option Z) :
  get_event_dividers d = Ok (Some (ev, lv)) ->
  -1 <= e ->
  (exists m : Z,
      find_cool_event e d threshold 1 = Ok (value m)
      /\ e < m <= len ev - 2
      /\ cool_at d ev threshold m = true
      /\ forall j : Z, e < j < m -> cool_at d ev threshold j = false)
  \/ (find_cool_event e d threshold 1 = Ok no_update
      /\ forall j : Z, e < j <= len ev - 2 -> cool_at d ev threshold j = false).
Proof.
  intros G He.
  destruct (dividers_entries d G) as [_ [HP _]].
  unfold find_cool_event. rewrite G. cbn [bind unpack fst].
  change (1 =? 0) with false. change (1 =? -1) with false. cbv iota.
  rewrite range_forward.
  set (f := fun k : nat => e + 1 + Z.of_nat k * 1).
  set (n := Z.to_nat (len ev - 1 - (e + 1))).
  destruct (@scan_cool_first d ev threshold HP f n 0)
    as [[k [Hk [Hr [Hc Hb]]]]|[Hr Hb]].
  - intros k Hk. unfold f, n in *. lia.
  - left. exists (f k). split; [exact Hr|]. unfold f, n in *.
    split; [lia|]. split; [exact Hc|].
    intros j Hj.
    replace j with (e + 1 + Z.of_nat (Z.to_nat (j - e - 1)) * 1) by lia.
    apply Hb. lia.
  - right. split; [exact Hr|]. intros j Hj.
    replace j with (f (Z.to_nat (j - e - 1))) by (unfold f; lia).
    apply Hb. unfold n. lia.
Qed.

Lemma find_cool_event_backward (d : datalog) (ev lv : list Z) (e : Z)
    (threshold : option Z) :
  get_event_dividers d = Ok (Some (ev, lv)) ->
  e <= len ev - 1 ->
  (exists m : Z,
      find_cool_event e d threshold (-1) = Ok (value m)
      /\ 0 <= m < e
      /\ cool_at d ev threshold m = true
      /\ forall j : Z, m < j < e -> cool_at d ev threshold j = false)
  \/ (find_cool_event e d threshold (-1) = Ok no_update
      /\ forall j : Z, 0 <= j < e -> cool_at d ev threshold j = false).
Proof.
  intros G He.
  destruct (dividers_entries d G) as [_ [HP _]].
  unfold find_cool_event. rewrite G. cbn [bind unpack fst].
  change (-1 =? 0) with false. change (-1 =? -1) with true. cbv iota.
  rewrite range_backward.
  set (f := fun k : nat => e + -1 + Z.of_nat k * -1).
  set (n := Z.to_nat (e + -1 - -1)).
  destruct (@scan_cool_first d ev threshold HP f n 0)
    as [[k [Hk [Hr [Hc Hb]]]]|[Hr Hb]].
  - intros k Hk. unfold f, n in *. lia.
  - left. exists (f k). split; [exact Hr|]. unfold f, n in *.
    split; [lia|]. split; [exact Hc|].
    intros j Hj.
    replace j with (e + -1 + Z.of_nat (Z.to_nat (e - 1 - j)) * -1) by lia.
    apply Hb. lia.
  - right. split; [exact Hr|]. intros j Hj.
    replace j with (f (Z.to_nat (e - 1 - j))) by (unfold f; lia).
    apply Hb. unfold n. lia.
Qed.

(** X6.  At the ends of the table the scan meets no event: looking to
    the front from an id of 0 or less, and looking to the back from the
    last event or any id beyond it, gives [no_update] whatever the
    threshold, and the click callbacks keep the shown id. *)
Theorem find_cool_event_at_the_ends :
  forall (d : datalog) (ev lv : list Z) (e shown : Z) (threshold : option Z),
    get_event_dividers d = Ok (Some (ev, lv)) ->
    (e <= 0 ->
       find_cool_event e d threshold (-1) = Ok no_update
       /\ prev_cool_click shown e d threshold = Ok shown)
    /\ (len ev - 2 <= e ->
          find_cool_event e d threshold 1 = Ok no_update
          /\ next_cool_click shown e d threshold = Ok shown).
Proof.
  intros d ev lv e shown threshold G.
  pose proof (dividers_len_ge_2 d G) as L. split; intros He.
  - assert (H : find_cool_event e d threshold (-1) = Ok no_update).
    { destruct (@find_cool_event_backward d ev lv e threshold G ltac:(lia))
        as [[m [_ [Hm _]]]|[Hr _]]; [lia|exact Hr]. }
    split; [exact H|]. unfold prev_cool_click. now rewrite H.
  - assert (H : find_cool_event e d threshold 1 = Ok no_update).
    { destruct (@find_cool_event_forward d ev lv e threshold G ltac:(lia))
        as [[m [_ [Hm _]]]|[Hr _]]; [lia|exact Hr]. }
    split; [exact H|]. unfold next_cool_click. now rewrite H.
Qed.

Lemma find_cool_event_at_the_ends_witness :
  get_event_dividers cool_log = Ok (Some ([0; 2; 4; 6], []))
  /\ 0 <= 0
  /\ find_cool_event 0 cool_log (Some (-5)) (-1) = Ok no_update
  /\ len [0; 2; 4; 6] - 2 <= 2
  /\ find_cool_event 2 cool_log (Some (-5)) 1 = Ok no_update.
Proof.
  split; [reflexivity|].
  destruct (@find_cool_event_at_the_ends cool_log [0; 2; 4; 6] [] 0 0
              (Some (-5)) eq_refl) as [H1 _].
  destruct (@find_cool_event_at_the_ends cool_log [0; 2; 4; 6] [] 2 0
              (Some (-5)) eq_refl) as [_ H2].
  split; [lia|]. split; [apply H1; lia|].
  assert (L : len [0; 2; 4; 6] - 2 <= 2) by (unfold len; simpl; lia).
  split; [exact L|]. apply H2. exact L.
Defined.

(** X7.  From a cool event, going to the next cool event and then to the
    previous one leads back to where one started; likewise the other way
    round. *)
Theorem next_then_prev_cool_returns :
  forall (d : datalog) (ev lv : list Z) (e m : Z) (threshold : option Z),
    get_event_dividers d = Ok (Some (ev, lv)) ->
    0 <= e <= len ev - 2 ->
    cool_at d ev threshold e = true ->
    (find_cool_event e d threshold 1 = Ok (value m) ->
       find_cool_event m d threshold (-1) = Ok (value e))
    /\ (find_cool_event e d threshold (-1) = Ok (value m) ->
          find_cool_event m d threshold 1 = Ok (value e)).
Proof.
  intros d ev lv e m threshold G He Hcool. split; intros Hfind.
  - destruct (@find_cool_event_forward d ev lv e threshold G ltac:(lia))
      as [[m1 [Hr [Hm [Hc Hb]]]]|[Hr _]]; [|congruence].
    assert (m1 = m) by congruence. subst m1.
    destruct (@find_cool_event_backward d ev lv m threshold G ltac:(lia))
      as [[m2 [Hr2 [Hm2 [Hc2 Hb2]]]]|[_ Hb2]].
    + rewrite Hr2. do 2 f_equal.
      destruct (Z.lt_trichotomy m2 e) as [H|[H|H]]; [|exact H|].
      * rewrite Hb2 in Hcool by lia. discriminate.
      * rewrite Hb in Hc2 by lia. discriminate.
    + rewrite Hb2 in Hcool by lia. discriminate.
  - destruct (@find_cool_event_backward d ev lv e threshold G ltac:(lia))
      as [[m1 [Hr [Hm [Hc Hb]]]]|[Hr _]]; [|congruence].
    assert (m1 = m) by congruence. subst m1.
    destruct (@find_cool_event_forward d ev lv m threshold G ltac:(lia))
      as [[m2 [Hr2 [Hm2 [Hc2 Hb2]]]]|[_ Hb2]].
    + rewrite Hr2. do 2 f_equal.
      destruct (Z.lt_trichotomy m2 e) as [H|[H|H]]; [|exact H|].
      * rewrite Hb in Hc2 by lia. discriminate.
      * rewrite Hb2 in Hcool by lia. discriminate.
    + rewrite Hb2 in Hcool by lia. discriminate.
Qed.

Lemma next_then_prev_cool_returns_witness :
  get_event_dividers cool_log = Ok (Some ([0; 2; 4; 6], []))
  /\ 0 <= 0 <= len [0; 2; 4; 6] - 2
  /\ cool_at cool_log [0; 2; 4; 6] (Some 4) 0 = true
  /\ find_cool_event 0 cool_log (Some 4) 1 = Ok (value 1)
  /\ find_cool_event 1 cool_log (Some 4) (-1) = Ok (value 0).
Proof.
  assert (L : 0 <= 0 <= len [0; 2; 4; 6] - 2) by (unfold len; simpl; lia).
  split; [reflexivity|]. split; [exact L|]. split; [reflexivity|].
  split; [reflexivity|].
  apply (@next_then_prev_cool_returns cool_log [0; 2; 4; 6] [] 0 1 (Some 4)
           eq_refl L eq_refl).
  reflexivity.
Defined.

(** X8.  Whatever id [find_cool_event] returns, from a start id from
    which the scan meets ids of events only, is an id of the table that
    [update_event_id_click] keeps and [draw_event] draws. *)
Theorem found_cool_event_is_drawn :
  forall (d : datalog) (ev lv : list Z) (e m : Z) (threshold : option Z)
         (direction : Z),
    get_event_dividers d = Ok (Some (ev, lv)) ->
    (direction = 1 /\ -1 <= e) \/ (direction = -1 /\ e <= len ev - 1) ->
    find_cool_event e d threshold direction = Ok (value m) ->
    update_event_id_click m d = Ok m
    /\ exists h : hits, draw_event d ev m = Ok h.
Proof.
  intros d ev lv e m threshold direction G Hdir Hfind.
  assert (Hm : 0 <= m <= len ev - 2).
  { destruct Hdir as [[-> He]|[-> He]].
    - destruct (@find_cool_event_forward d ev lv e threshold G He)
        as [[m1 [Hr [Hm _]]]|[Hr _]]; [|congruence].
      assert (m1 = m) by congruence. lia.
    - destruct (@find_cool_event_backward d ev lv e threshold G He)
        as [[m1 [Hr [Hm _]]]|[Hr _]]; [|congruence].
      assert (m1 = m) by congruence. lia. }
  split.
  - unfold update_event_id_click. rewrite G. cbn [bind unpack fst].
    destruct (len ev - 1 <=? m) eqn:E1; [apply Z.leb_le in E1; lia|].
    destruct (m <? 0) eqn:E2; [apply Z.ltb_lt in E2; lia|reflexivity].
  - eexists. apply (draw_event_inside d G). lia.
Qed.

Lemma found_cool_event_is_drawn_witness :
  get_event_dividers cool_log = Ok (Some ([0; 2; 4; 6], []))
  /\ ((1 = 1 /\ -1 <= 0) \/ (1 = -1 /\ 0 <= len [0; 2; 4; 6] - 1))
  /\ find_cool_event 0 cool_log None 1 = Ok (value 1)
  /\ update_event_id_click 1 cool_log = Ok 1
  /\ exists h : hits, draw_event cool_log [0; 2; 4; 6] 1 = Ok h.
Proof.
  assert (Hd : (1 = 1 /\ -1 <= 0) \/ (1 = -1 /\ 0 <= len [0; 2; 4; 6] - 1))
    by (left; lia).
  split; [reflexivity|]. split; [exact Hd|]. split; [reflexivity|].
  apply (@found_cool_event_is_drawn cool_log [0; 2; 4; 6] [] 0 1 None 1
           eq_refl Hd eq_refl).
Defined.

(** ** Coolness of what is drawn and of what is scanned *)

Lemma data_adc_sum_filter_le (f : packet -> bool) (pk : list packet) :
  (forall p, In p pk -> 0 <= dataword p) ->
  data_adc_sum (filter f pk) <= data_adc_sum pk.
Proof.
  induction pk as [|p pk IH]; intros H; [simpl; lia|].
  assert (IH' : data_adc_sum (filter f pk) <= data_adc_sum pk)
    by (apply IH; intros q Hq; apply H; now right).
  assert (Hp : 0 <= dataword p) by (apply H; now left).
  cbn [filter data_adc_sum].
  destruct (f p); cbn [data_adc_sum]; destruct (packet_type p =? 0); lia.
Qed.

(** X9.  [find_cool_event] judges an event by all packets of its span,
    [draw_event] shows those within the time buffer only.  When no
    [dataword] is negative, an event whose drawn packets are cool is cool
    for the scan as well; and an event cool at one threshold is cool at
    every lower one. *)
Theorem drawn_cool_is_scanned_cool :
  forall (d : datalog) (ev lv : list Z) (event_id : Z) (threshold : option Z)
         (h : hits),
    get_event_dividers d = Ok (Some (ev, lv)) ->
    0 <= event_id < len ev - 1 ->
    (forall p, In p (packets d) -> 0 <= dataword p) ->
    draw_event d ev event_id = Ok h ->
    (is_cool_event (event_packets h) threshold = true ->
       cool_at d ev threshold event_id = true)
    /\ forall lower : Z,
         lower <= effective_threshold threshold ->
         cool_at d ev threshold event_id = true ->
         cool_at d ev (Some lower) event_id = true.
Proof.
  intros d ev lv id threshold h G Hid Hpos Hdraw.
  rewrite (draw_event_inside d G Hid) in Hdraw. injection Hdraw as <-.
  cbn [event_packets]. unfold cool_at. rewrite !is_cool_event_ltb. split.
  - intros H. apply Z.ltb_lt in H. apply Z.ltb_lt.
    eapply Z.lt_le_trans; [exact H|].
    apply data_adc_sum_filter_le. intros p Hp. apply Hpos.
    eapply raw_range_incl; exact Hp.
  - intros lower Hl H. rewrite is_cool_event_ltb.
    apply Z.ltb_lt in H. apply Z.ltb_lt. cbn [effective_threshold]. lia.
Qed.

Lemma drawn_cool_is_scanned_cool_witness :
  get_event_dividers cool_log = Ok (Some ([0; 2; 4; 6], []))
  /\ 0 <= 1 < len [0; 2; 4; 6] - 1
  /\ (forall p, In p (packets cool_log) -> 0 <= dataword p)
  /\ draw_event cool_log [0; 2; 4; 6] 1
     = Ok (mkHits [pkt 7 10; data 11 30000] 2 10)
  /\ is_cool_event [pkt 7 10; data 11 30000] None = true
  /\ cool_at cool_log [0; 2; 4; 6] None 1 = true.
Proof.
  assert (L : 0 <= 1 < len [0; 2; 4; 6] - 1) by (unfold len; simpl; lia).
  assert (P : forall p, In p (packets cool_log) -> 0 <= dataword p).
  { intros p Hp. simpl in Hp.
    repeat (destruct Hp as [<-|Hp]; [simpl; lia|]). destruct Hp. }
  split; [reflexivity|]. split; [exact L|]. split; [exact P|].
  split; [reflexivity|]. split; [reflexivity|].
  destruct (@drawn_cool_is_scanned_cool cool_log [0; 2; 4; 6] [] 1 None
              (mkHits [pkt 7 10; data 11 30000] 2 10) eq_refl L P eq_refl)
    as [H _].
  apply H. reflexivity.
Defined.

(** ** Sorting by light index *)

Lemma insert_key_perm (x : Z * Z) (s : list (Z * Z)) :
  Permutation (np.insert_key x s) (x :: s).
Proof.
  induction s as [|y s IH]; cbn [np.insert_key]; [apply Permutation_refl|].
  destruct (fst x <=? fst y); [apply Permutation_refl|].
  eapply Permutation_trans; [apply perm_skip, IH|apply perm_swap].
Qed.

Lemma insert_keys_perm (l : list (Z * Z)) :
  Permutation (fold_right np.insert_key [] l) l.
Proof.
  induction l as [|x l IH]; cbn [fold_right]; [apply Permutation_refl|].
  eapply Permutation_trans; [apply insert_key_perm|now apply perm_skip].
Qed.

Lemma insert_key_sorted (x : Z * Z) (s : list (Z * Z)) :
  StronglySorted key_le s -> StronglySorted key_le (np.insert_key x s).
Proof.
  intros Hs. induction Hs as [|y s Hs IH F]; cbn [np.insert_key].
  - constructor; constructor.
  - destruct (fst x <=? fst y) eqn:E.
    + apply Z.leb_le in E. constructor; [now constructor|].
      constructor; [exact E|].
      rewrite Forall_forall in F |- *. intros z Hz. specialize (F z Hz).
      unfold key_le in *. lia.
    + apply Z.leb_gt in E. constructor; [exact IH|].
      rewrite Forall_forall in F |- *. intros z Hz.
      apply (Permutation_in _ (insert_key_perm x s)) in Hz.
      destruct Hz as [<-|Hz]; [unfold key_le; lia|now apply F].
Qed.

Lemma insert_keys_sorted_le (l : list (Z * Z)) :
  StronglySorted key_le (fold_right np.insert_key [] l).
Proof.
  induction l as [|x l IH]; cbn [fold_right]; [constructor|].
  now apply insert_key_sorted.
Qed.

(** Every pair of [combine a (arange (length a))] holds a value of [a]
    and its place. *)
Lemma combine_arange_places (a pre : list Z) :
  Forall (fun p => 0 <= snd p < len (pre ++ a)
                   /\ nth (Z.to_nat (snd p)) (pre ++ a) 0 = fst p)
         (combine a (map Z.of_nat (seq (length pre) (length a)))).
Proof.
  revert pre; induction a as [|x a IH]; intros pre; [constructor|].
  cbn [length seq map combine]. constructor.
  - cbn [fst snd]. unfold len. rewrite length_app. cbn [length].
    split; [lia|]. rewrite Nat2Z.id, app_nth2, Nat.sub_diag by lia. reflexivity.
  - specialize (IH (pre ++ [x])).
    rewrite <- app_assoc, length_app in IH. cbn [app length] in IH.
    rewrite Nat.add_1_r in IH. exact IH.
Qed.

Lemma map_fst_combine (l idx : list Z) :
  length l = length idx -> map fst (combine l idx) = l.
Proof.
  revert idx; induction l as [|x l IH]; intros [|i idx] H;
    try discriminate; [reflexivity|].
  injection H as H. cbn [combine map fst]. now rewrite IH.
Qed.

Lemma sorted_pairs_places (a : list Z) :
  Forall (fun p => 0 <= snd p < len a /\ nth (Z.to_nat (snd p)) a 0 = fst p)
         (sorted_pairs a).
Proof.
  rewrite Forall_forall. intros p Hp.
  apply (Permutation_in _ (insert_keys_perm _)) in Hp.
  pose proof (combine_arange_places a []) as H.
  rewrite Forall_forall in H. apply (H p Hp).
Qed.

Lemma sorted_pairs_keys (a : list Z) :
  Permutation (map fst (sorted_pairs a)) a.
Proof.
  eapply Permutation_trans.
  - apply Permutation_map, insert_keys_perm.
  - rewrite map_fst_combine; [apply Permutation_refl|].
    unfold np.arange. now rewrite length_map, length_seq.
Qed.

Lemma argsort_length (a : list Z) : length (np.argsort a) = length a.
Proof.
  unfold np.argsort. fold (sorted_pairs a). rewrite length_map.
  rewrite <- (length_map fst). apply Permutation_length, sorted_pairs_keys.
Qed.

Lemma argsort_inside (a : list Z) (i : Z) :
  In i (np.argsort a) -> 0 <= i < len a.
Proof.
  unfold np.argsort. fold (sorted_pairs a). intros H.
  apply in_map_iff in H. destruct H as [p [<- Hp]].
  pose proof (sorted_pairs_places a) as F. rewrite Forall_forall in F.
  apply (F p Hp).
Qed.

(** Indexing an array by its own [argsort] gives its values in order. *)
Lemma take_argsort (a : list Z) :
  np.take a (np.argsort a) = Ok (map fst (sorted_pairs a)).
Proof.
  rewrite take_nth by apply argsort_inside.
  unfold np.argsort. fold (sorted_pairs a). f_equal.
  rewrite map_map. apply map_ext_in. intros p Hp.
  pose proof (sorted_pairs_places a) as F. rewrite Forall_forall in F.
  apply (F p Hp).
Qed.

Lemma sorted_keys_nondecreasing (a : list Z) :
  nondecreasing (map fst (sorted_pairs a)).
Proof.
  unfold nondecreasing, sorted_pairs.
  pose proof (insert_keys_sorted_le (combine a (np.arange (length a)))) as H.
  induction H as [|p s Hs IH F]; cbn [map]; constructor; [exact IH|].
  rewrite Forall_forall in F |- *. intros z Hz.
  apply in_map_iff in Hz. destruct Hz as [q [<- Hq]]. apply (F q Hq).
Qed.

Lemma nondecreasing_NoDup_increasing (l : list Z) :
  nondecreasing l -> NoDup l -> strictly_increasing l.
Proof.
  unfold nondecreasing, strictly_increasing. intros Hs.
  induction Hs as [|x l Hs IH F]; intros Hn; constructor.
  - apply IH. now inversion Hn.
  - inversion Hn as [|? ? Hx _]; subst.
    rewrite Forall_forall in F |- *. intros y Hy. specialize (F y Hy).
    assert (x <> y) by (intros ->; contradiction). lia.
Qed.

Lemma first_index_nth (v : Z) (a : list Z) :
  In v a -> nth (np.first_index v a) a 0 = v.
Proof.
  induction a as [|x a IH]; [intros []|].
  cbn [np.first_index]. destruct (x =? v) eqn:E.
  - apply Z.eqb_eq in E. now intros _.
  - apply Z.eqb_neq in E. intros [H|H]; [congruence|]. cbn [nth]. now apply IH.
Qed.

Lemma first_indices_NoDup (a l : list Z) :
  NoDup l -> (forall v, In v l -> In v a) ->
  NoDup (map (fun v => Z.of_nat (np.first_index v a)) l).
Proof.
  intros Hn Hin. apply NoDup_map_NoDup_ForallPairs; [|exact Hn].
  intros v w Hv Hw E.
  apply Nat2Z.inj in E.
  rewrite <- (first_index_nth v a (Hin v Hv)), <- (first_index_nth w a (Hin w Hw)).
  now rewrite E.
Qed.

Lemma sorted_NoDup (l : list Z) : strictly_increasing l -> NoDup l.
Proof.
  unfold strictly_increasing. intros Hs.
  induction Hs as [|x l Hs IH F]; constructor; [|exact IH].
  intros Hx. rewrite Forall_forall in F. specialize (F x Hx). lia.
Qed.

(** ** The light branch never fails half-way *)

Lemma select_trigger_mask (pk : list packet) :
  np.select (trigger_mask_of pk) pk = filter (fun p => packet_type p =? 7) pk.
Proof. unfold trigger_mask_of. apply select_filter. Qed.

Lemma trigger_timestamps_length (pk : list packet) :
  length (map timestamp (filter (fun p => packet_type p =? 7) pk))
  = length (np.nonzero (trigger_mask_of pk)).
Proof.
  unfold np.nonzero, trigger_mask_of.
  now rewrite length_map, nonzero_from_length.
Qed.

(** The matching and sorting steps always succeed; they keep one entry
    per common timestamp, and [il] is the sorted array of the light
    indices. *)
Lemma light_matches_total (d : datalog) (lt : list light_trigger) :
  let a := map ts_sync lt in
  let b := map timestamp (filter (fun p => packet_type p =? 7) (packets d)) in
  let common := filter (fun v => np.isin v b) (np.unique a) in
  let il0 := map (fun v => Z.of_nat (np.first_index v a)) common in
  exists ts ic : list Z,
    light_matches d lt = Ok (ts, map fst (sorted_pairs il0), ic)
    /\ length ts = length common.
Proof.
  intros a b common il0. unfold light_matches.
  rewrite mask_index_Ok by (unfold trigger_mask_of; now rewrite length_map).
  cbn [bind]. rewrite select_trigger_mask. unfold np.intersect1d.
  fold a. fold b. fold common. fold il0.
  assert (Hin : forall v, In v common -> In v a /\ In v b).
  { intros v Hv. unfold common in Hv. apply filter_In in Hv.
    destruct Hv as [H1 H2]. split; [now apply unique_In|now apply isin_In]. }
  assert (Hlen : length il0 = length common) by (unfold il0; apply length_map).
  rewrite (take_nth (np.nonzero (trigger_mask_of (packets d)))).
  2:{ intros i Hi. apply in_map_iff in Hi. destruct Hi as [v [<- Hv]].
      apply Hin in Hv. destruct Hv as [_ Hv]. apply first_index_lt in Hv.
      unfold b in Hv |- *. rewrite trigger_timestamps_length in Hv.
      unfold len. lia. }
  cbn [bind]. rewrite take_argsort. cbn [bind].
  rewrite take_nth.
  2:{ intros i Hi. apply argsort_inside in Hi. unfold len in *.
      rewrite !length_map. rewrite Hlen in Hi. exact Hi. }
  cbn [bind]. rewrite take_nth.
  2:{ intros i Hi. apply argsort_inside in Hi. unfold len in *.
      rewrite Hlen in Hi. exact Hi. }
  cbn [bind]. eexists; eexists. split; [reflexivity|].
  now rewrite length_map, argsort_length.
Qed.

(** X10.  With light data and at least one trigger packet,
    [get_event_dividers] returns a table exactly when some trigger packet
    carries the sync timestamp of some light trigger; when no timestamp
    is shared it raises [IndexError] (it neither returns [None] nor an
    empty table). *)
Theorem light_branch_needs_a_match :
  forall (d : datalog) (lt : list light_trigger),
    light_trig d = Some lt ->
    np.any (trigger_mask_of (packets d)) = true ->
    ((exists (l : light_trigger) (p : packet),
        In l lt /\ In p (packets d) /\ packet_type p = 7
        /\ ts_sync l = timestamp p) ->
     exists ev lv : list Z, get_event_dividers d = Ok (Some (ev, lv)))
    /\ ((forall (l : light_trigger) (p : packet),
           In l lt -> In p (packets d) -> packet_type p = 7 ->
           ts_sync l <> timestamp p) ->
        get_event_dividers d = Raise IndexError).
Proof.
  intros d lt HL HA.
  destruct (light_matches_total d lt) as [ts [ic [M Hts]]].
  cbv zeta in M, Hts.
  destruct (light_matches_lengths d lt M) as [Hil Hic].
  rewrite (get_event_dividers_light d HL HA), M. cbn [bind].
  set (a := map ts_sync lt) in *.
  set (b := map timestamp (filter (fun p => packet_type p =? 7) (packets d))) in *.
  set (common := filter (fun v => np.isin v b) (np.unique a)) in *.
  split.
  - intros [l [p [Hl [Hp [Hty E]]]]].
    assert (Hc : In (ts_sync l) common).
    { unfold common. apply filter_In. split.
      - apply unique_In. unfold a. now apply in_map.
      - apply isin_In. rewrite E. unfold b. apply in_map.
        apply filter_In. split; [exact Hp|]. now apply Z.eqb_eq. }
    assert (Hne : ts <> []).
    { intros ->. destruct common; [destruct Hc|discriminate]. }
    rewrite merge_matches_Ok by assumption. eauto.
  - intros Hno.
    assert (Hc : common = []).
    { destruct common as [|v c] eqn:E; [reflexivity|exfalso].
      assert (Hv : In v common) by (rewrite E; now left).
      unfold common in Hv. apply filter_In in Hv. destruct Hv as [H1 H2].
      rewrite unique_In in H1. rewrite isin_In in H2.
      unfold a in H1. apply in_map_iff in H1. destruct H1 as [l [El Hl]].
      unfold b in H2. apply in_map_iff in H2. destruct H2 as [p [Ep Hp]].
      apply filter_In in Hp. destruct Hp as [Hp Hty]. apply Z.eqb_eq in Hty.
      apply (Hno l p Hl Hp Hty). congruence. }
    rewrite Hc in Hts. destruct ts; [|discriminate].
    apply merge_matches_empty. now rewrite Hil.
Qed.

Lemma light_branch_needs_a_match_witness :
  light_trig unmatched_light_log = Some [lig 101; lig 299]
  /\ np.any (trigger_mask_of (packets unmatched_light_log)) = true
  /\ (forall (l : light_trigger) (p : packet),
        In l [lig 101; lig 299] -> In p (packets unmatched_light_log) ->
        packet_type p = 7 -> ts_sync l <> timestamp p)
  /\ get_event_dividers unmatched_light_log = Raise IndexError.
Proof.
  assert (Hno : forall (l : light_trigger) (p : packet),
            In l [lig 101; lig 299] -> In p (packets unmatched_light_log) ->
            packet_type p = 7 -> ts_sync l <> timestamp p).
  { intros l p Hl Hp Hty. simpl in Hl, Hp.
    destruct Hl as [<-|[<-|[]]]; destruct Hp as [<-|[<-|[<-|[]]]];
      simpl in *; lia. }
  split; [reflexivity|]. split; [reflexivity|]. split; [exact Hno|].
  destruct (@light_branch_needs_a_match unmatched_light_log
              [lig 101; lig 299] eq_refl eq_refl) as [_ H].
  exact (H Hno).
Defined.

(** ** The light boundaries *)

Lemma light_boundaries_sorted
    (d : datalog) (lt : list light_trigger) (ev lv : list Z) :
  light_trig d = Some lt ->
  get_event_dividers d = Ok (Some (ev, lv)) ->
  strictly_increasing lv
  /\ last lv 0 = len lt
  /\ forall k : nat, (S k < length lv)%nat -> 0 <= nth k lv 0 < len lt.
Proof.
  intros HL G.
  destruct (dividers_light_inv d HL G) as [ts [il [ic [M [Hts [_ ->]]]]]].
  destruct (light_matches_total d lt) as [ts' [ic' [M' _]]].
  cbv zeta in M'. rewrite M in M'. injection M' as _ Hil _.
  set (a := map ts_sync lt) in *.
  set (b := map timestamp (filter (fun p => packet_type p =? 7) (packets d))) in *.
  set (common := filter (fun v => np.isin v b) (np.unique a)) in *.
  set (il0 := map (fun v => Z.of_nat (np.first_index v a)) common) in *.
  assert (Hin : forall v, In v common -> In v a).
  { intros v Hv. unfold common in Hv. apply filter_In in Hv.
    now apply unique_In. }
  assert (Hsorted : strictly_increasing il).
  { rewrite Hil. apply nondecreasing_NoDup_increasing.
    - apply sorted_keys_nondecreasing.
    - apply (Permutation_NoDup (Permutation_sym (sorted_pairs_keys il0))).
      apply first_indices_NoDup; [|exact Hin].
      apply sorted_NoDup. unfold common. rewrite <- select_filter.
      apply select_sorted, unique_sorted. }
  assert (Hbound : forall x, In x il -> 0 <= x < len lt).
  { intros x Hx. rewrite Hil in Hx.
    apply (Permutation_in _ (sorted_pairs_keys il0)) in Hx.
    unfold il0 in Hx. apply in_map_iff in Hx. destruct Hx as [v [<- Hv]].
    apply Hin, first_index_lt in Hv. unfold a in Hv |- *.
    rewrite length_map in Hv. unfold len. lia. }
  split; [|split].
  - apply sorted_snoc; [now apply select_sorted|].
    intros y Hy. apply select_incl in Hy. apply Hbound in Hy. lia.
  - apply last_last.
  - intros k Hk. rewrite length_app in Hk. cbn [length] in Hk.
    rewrite app_nth1 by lia. apply Hbound.
    eapply select_incl. apply nth_In. lia.
Qed.

(** X11.  With light data, the light boundaries returned are strictly
    increasing, whatever the order of the timestamps; every entry before
    the last is the index of a light trigger and the last is the number of
    light triggers. *)
Theorem light_dividers_increasing :
  forall (d : datalog) (lt : list light_trigger) (ev lv : list Z),
    light_trig d = Some lt ->
    get_event_dividers d = Ok (Some (ev, lv)) ->
    strictly_increasing lv
    /\ last lv 0 = len lt
    /\ forall k : nat, (S k < length lv)%nat -> 0 <= nth k lv 0 < len lt.
Proof.
  intros d lt ev lv HL G. exact (@light_boundaries_sorted d lt ev lv HL G).
Qed.

Lemma light_dividers_increasing_witness :
  light_trig unordered_light_log = Some [lig 5000; lig 100; lig 1000]
  /\ get_event_dividers unordered_light_log = Ok (Some ([2; 1; 3], [0; 2; 3]))
  /\ strictly_increasing [0; 2; 3]
  /\ last [0; 2; 3] 0 = len [lig 5000; lig 100; lig 1000].
Proof.
  split; [reflexivity|]. split; [reflexivity|].
  destruct (@light_dividers_increasing unordered_light_log
              [lig 5000; lig 100; lig 1000] [2; 1; 3] [0; 2; 3] eq_refl eq_refl)
    as [H1 [H2 _]].
  split; [exact H1|exact H2].
Defined.

(** ** The light triggers of an event *)

Lemma nth_pred_length_last (l : list Z) :
  l <> [] -> nth (length l - 1) l 0 = last l 0.
Proof.
  induction l as [|x l IH]; [congruence|]. intros _.
  destruct l as [|y l]; [reflexivity|].
  specialize (IH ltac:(discriminate)).
  simpl in IH |- *. rewrite Nat.sub_0_r in IH. exact IH.
Qed.

Lemma range_forward_In (start stop x : Z) :
  In x (np.range start stop 1) <-> start <= x < stop.
Proof.
  rewrite range_forward, in_map_iff. split.
  - intros [k [<- Hk]]. apply in_seq in Hk. lia.
  - intros H. exists (Z.to_nat (x - start)). split; [lia|].
    apply in_seq. lia.
Qed.

(** X12.  With light data, the light range of every event of the table
    is a run of indices of light triggers, it is not empty, and every
    light index from the first light boundary on belongs to the range of
    exactly one event. *)
Theorem light_ranges_partition :
  forall (d : datalog) (lt : list light_trigger) (ev lv : list Z),
    light_trig d = Some lt ->
    get_event_dividers d = Ok (Some (ev, lv)) ->
    (forall event_id : Z,
       0 <= event_id < len ev - 1 ->
       exists r : list Z,
         light_range lv event_id = Ok r
         /\ r <> []
         /\ forall x : Z,
              In x r <-> covers lv (Z.to_nat event_id) x)
    /\ (forall (i : nat) (x : Z), covers lv i x -> 0 <= x < len lt)
    /\ (forall x : Z,
          hd 0 lv <= x < len lt ->
          exists i : nat, covers lv i x /\ forall j : nat, covers lv j x -> j = i).
Proof.
  intros d lt ev lv HL G.
  destruct (@light_boundaries_sorted d lt ev lv HL G) as [Hs [Hlast Hb]].
  assert (Hlen : length lv = length ev).
  { destruct (dividers_light_inv d HL G) as [ts [il [ic [M [Hts [-> ->]]]]]].
    destruct (light_matches_lengths d lt M) as [Hil Hic].
    rewrite !length_app. cbn [length]. f_equal.
    apply select_length_eq. congruence. }
  split; [|split].
  - intros id Hid. unfold len in Hid.
    assert (Hlt : nth (Z.to_nat id) lv 0 < nth (S (Z.to_nat id)) lv 0)
      by (apply sorted_nth_lt; [exact Hs|lia|lia]).
    exists (np.range (nth (Z.to_nat id) lv 0) (nth (S (Z.to_nat id)) lv 0) 1).
    split; [|split].
    + unfold light_range.
      rewrite (getitem_inside _ 0) by (unfold len; lia). cbn [bind].
      rewrite (getitem_inside _ 0) by (unfold len; lia). cbn [bind].
      replace (Z.to_nat (id + 1)) with (S (Z.to_nat id)) by lia. reflexivity.
    + intros E.
      assert (In (nth (Z.to_nat id) lv 0)
                 (np.range (nth (Z.to_nat id) lv 0) (nth (S (Z.to_nat id)) lv 0) 1))
        as Hin by (apply range_forward_In; lia).
      rewrite E in Hin. destruct Hin.
    + intros x. rewrite range_forward_In. unfold covers. split.
      * intros H. split; [lia|exact H].
      * intros [_ H]. exact H.
  - intros i x [Hi Hc].
    pose proof (Hb i Hi) as H1.
    assert (nth (S i) lv 0 <= len lt).
    { destruct (Nat.eq_dec (S (S i)) (length lv)) as [E|N].
      - replace (S i) with (length lv - 1)%nat by lia.
        rewrite nth_pred_length_last by (intros ->; simpl in Hi; lia).
        rewrite Hlast. lia.
      - pose proof (Hb (S i) ltac:(lia)). lia. }
    lia.
  - intros x Hx.
    destruct (@covers_exists lv x) as [i Hi]; [rewrite Hlast; lia|].
    exists i. split; [exact Hi|]. intros j Hj.
    eapply covers_unique; eauto.
Qed.

(** ** The tracks handed to [plot_tracks] *)

(** X13.  When [draw_event] calls [plot_tracks], the ids it hands over
    are all the integers from the second smallest track id found among
    the event's packets up to, but not including, the largest one: the
    smallest id and the largest id are never handed over, although the
    largest one does belong to a packet of the event. *)
Theorem track_range_bounds :
  forall (rows : list (list Z)) (start_packet end_packet : Z)
         (within_buffer : list bool) (r : list Z),
    track_range rows start_packet end_packet within_buffer = Ok (Some r) ->
    exists (selected : list (list Z)) (smallest : Z) (others : list Z),
      np.mask_index (np.slice rows start_packet end_packet) within_buffer
      = Ok selected
      /\ np.unique (concat selected) = smallest :: others
      /\ others <> []
      /\ (forall x : Z, In x r <-> hd 0 others <= x < last others 0)
      /\ ~ In smallest r
      /\ ~ In (last others 0) r
      /\ In (last others 0) (concat selected).
Proof.
  intros rows s e wb r H. unfold track_range in H.
  apply bind_Ok_inv in H. destruct H as [selected [E H]].
  pose proof (unique_sorted (concat selected)) as Hs.
  pose proof (unique_In (concat selected)) as Hi.
  destruct (np.unique (concat selected)) as [|smallest others] eqn:U;
    [discriminate|].
  cbn [skipn] in H.
  destruct (0 <? len others) eqn:L; [|discriminate].
  apply Z.ltb_lt in L.
  assert (NE : others <> []) by (intros ->; unfold len in L; simpl in L; lia).
  rewrite (getitem_inside _ 0) in H by lia. cbn [bind] in H.
  rewrite getitem_last in H by exact NE. cbn [bind] in H.
  assert (Hhd : nth (Z.to_nat 0) others 0 = hd 0 others)
    by (destruct others; reflexivity).
  rewrite Hhd in H. injection H as <-.
  exists selected, smallest, others.
  split; [exact E|]. split; [exact U|]. split; [exact NE|].
  split; [intros x; apply range_forward_In|].
  split; [|split].
  - rewrite range_forward_In. intros [H1 _].
    inversion Hs as [|? ? _ F]; subst. rewrite Forall_forall in F.
    assert (smallest < hd 0 others).
    { apply F. destruct others; [congruence|now left]. }
    lia.
  - rewrite range_forward_In. lia.
  - apply Hi. right.
    destruct (exists_last NE) as [l' [a ->]]. rewrite last_last.
    apply in_or_app. right. now left.
Qed.

Lemma track_range_bounds_witness :
  track_range [[-1; 4]; [4; 5]; [-1; 7]; [9; 9]] 0 3 [true; true; true]
  = Ok (Some [4; 5; 6])
  /\ exists (selected : list (list Z)) (smallest : Z) (others : list Z),
       np.mask_index (np.slice [[-1; 4]; [4; 5]; [-1; 7]; [9; 9]] 0 3)
                     [true; true; true] = Ok selected
       /\ np.unique (concat selected) = smallest :: others
       /\ others <> []
       /\ (forall x : Z, In x [4; 5; 6] <-> hd 0 others <= x < last others 0)
       /\ ~ In smallest [4; 5; 6]
       /\ ~ In (last others 0) [4; 5; 6]
       /\ In (last others 0) (concat selected).
Proof.
  split; [reflexivity|].
  apply (@track_range_bounds [[-1; 4]; [4; 5]; [-1; 7]; [9; 9]] 0 3
           [true; true; true] [4; 5; 6]).
  reflexivity.
Defined.

(** ** Logs without adjacent triggers *)

Lemma run_ends_isolated (tp : list Z) :
  strictly_increasing tp ->
  (forall t, In t tp -> ~ In (t + 1) tp) ->
  run_ends tp = tp.
Proof.
  unfold strictly_increasing. intros Hs.
  induction Hs as [|x tp Hs IH F]; intros H; [reflexivity|].
  destruct tp as [|y tp]; [reflexivity|].
  change (run_ends (x :: y :: tp))
    with (if y - x =? 1 then run_ends (y :: tp) else x :: run_ends (y :: tp)).
  destruct (y - x =? 1) eqn:E.
  - apply Z.eqb_eq in E. exfalso. apply (H x); [now left|].
    right; left. lia.
  - f_equal. apply IH. intros t Ht Ht1.
    apply (H t); [now right|now right].
Qed.

(** X14.  Without light data, when no two trigger packets are next to
    each other, the boundaries are the indices of all trigger packets, in
    order, closed by the number of packets: every trigger opens its own
    event. *)
Theorem isolated_triggers_are_boundaries :
  forall d : datalog,
    light_trig d = None ->
    np.any (trigger_mask_of (packets d)) = true ->
    (forall t : Z,
       trigger_at (packets d) t = true -> trigger_at (packets d) (t + 1) = false) ->
    get_event_dividers d
    = Ok (Some (np.nonzero (trigger_mask_of (packets d)) ++ [len (packets d)], []))
    /\ update_total_events (Some 0) d
       = Ok (Z.of_nat (trigger_count d) - 1).
Proof.
  intros d HL HA Hiso.
  assert (G : get_event_dividers d
            = Ok (Some (np.nonzero (trigger_mask_of (packets d))
                          ++ [len (packets d)], []))).
  { rewrite get_event_dividers_no_light by assumption.
    rewrite run_ends_isolated; [reflexivity|apply trigger_packets_sorted|].
    intros t Ht Ht1. apply trigger_at_nonzero in Ht, Ht1.
    rewrite (Hiso t Ht) in Ht1. discriminate. }
  split; [exact G|].
  pose proof (dividers_len_ge_2 d G) as L.
  unfold update_total_events. rewrite G. cbn [bind unpack fst].
  destruct (len _ <? 2) eqn:E; [apply Z.ltb_lt in E; lia|].
  f_equal. unfold len, trigger_count. rewrite length_app. cbn [length].
  unfold np.nonzero, trigger_mask_of. rewrite nonzero_from_length. lia.
Qed.

Lemma isolated_triggers_are_boundaries_witness :
  light_trig scenario_log = None
  /\ np.any (trigger_mask_of (packets scenario_log)) = true
  /\ (forall t : Z,
        trigger_at (packets scenario_log) t = true ->
        trigger_at (packets scenario_log) (t + 1) = false)
  /\ get_event_dividers scenario_log
     = Ok (Some (np.nonzero (trigger_mask_of (packets scenario_log))
                   ++ [len (packets scenario_log)], []))
  /\ update_total_events (Some 0) scenario_log
     = Ok (Z.of_nat (trigger_count scenario_log) - 1).
Proof.
  assert (Hiso : forall t : Z,
            trigger_at (packets scenario_log) t = true ->
            trigger_at (packets scenario_log) (t + 1) = false).
  { intros t Ht. pose proof (trigger_at_inside _ _ Ht) as Hin.
    unfold len in Hin. simpl in Hin.
    assert (E : t = 0 \/ t = 1 \/ t = 2 \/ t = 3 \/ t = 4 \/ t = 5 \/ t = 6)
      by lia.
    destruct E as [->|[->|[->|[->|[->|[->| ->]]]]]];
      try reflexivity; discriminate Ht. }
  split; [reflexivity|]. split; [reflexivity|]. split; [exact Hiso|].
  apply (@isolated_triggers_are_boundaries scenario_log eq_refl eq_refl Hiso).
Defined.

(** ** The ADC histograms *)

Lemma select_mask_and_length (A : Type) (f g : A -> bool) (h : A -> Z) (l : list A) :
  length (np.select (mask_and (map f l) (map g l)) (map h l))
  = length (filter (fun p => f p && g p) l).
Proof.
  unfold mask_and.
  induction l as [|x l IH]; [reflexivity|].
  cbn [map combine np.select filter fst snd].
  destruct (f x && g x); cbn [length]; now rewrite IH.
Qed.

Lemma filter_split_length (A : Type) (f g : A -> bool) (l : list A) :
  (length (filter (fun p => f p && g p) l)
   + length (filter (fun p => negb (f p) && g p) l)
   = length (filter g l))%nat.
Proof.
  induction l as [|x l IH]; [reflexivity|].
  cbn [filter]. destruct (f x), (g x); cbn [andb negb length]; lia.
Qed.

(** X15.  For a loaded geometry and an event id from 0 to [len - 2],
    [adc_histogram] does not raise.  It returns [no_update] exactly when
    no data packet of the event's span lies in a module of the geometry
    (no time buffer is applied here); otherwise each row is for a module
    of the geometry with at least one such packet, and the two anode
    histograms of the row share the module's data packets between them:
    their sizes add up to the number of these packets. *)
Theorem adc_histogram_rows :
  forall (d : datalog) (ev lv : list Z) (event_id : Z) (g : geometry),
    get_event_dividers d = Ok (Some (ev, lv)) ->
    0 <= event_id < len ev - 1 ->
    let data_packets :=
      filter (fun p => packet_type p =? 0)
             (raw_range (packets d) (nth (Z.to_nat event_id) ev 0)
                        (nth (Z.to_nat (event_id + 1)) ev 0)) in
    (exists r, adc_histogram event_id d (KnownGeometry g) = Ok r)
    /\ (adc_histogram event_id d (KnownGeometry g) = Ok no_update
        <-> forall p, In p data_packets -> ~ In (module_of p) (module_ids g))
    /\ forall (rows : list (Z * list Z * list Z)) (m : Z) (h1 h2 : list Z),
         adc_histogram event_id d (KnownGeometry g) = Ok (value rows) ->
         In (m, h1, h2) rows ->
         In m (module_ids g)
         /\ (length h1 + length h2
             = length (filter (fun p => (module_of p =? m)%Z) data_packets))%nat
         /\ (0 < length h1 + length h2)%nat.
Proof.
  intros d ev lv id g G Hid data_packets.
  destruct (dividers_entries d G) as [HT [HP _]].
  assert (Hs : trigger_at (packets d) (nth (Z.to_nat id) ev 0) = true).
  { apply HT. unfold len in Hid. lia. }
  apply trigger_at_inside in Hs.
  assert (He : 0 <= nth (Z.to_nat (id + 1)) ev 0).
  { apply HP. apply nth_In. unfold len in Hid. lia. }
  set (active := filter (fun m => negb (Z.of_nat (length
                   (filter (fun p => (module_of p =? m)%Z) data_packets)) =? 0))
                   (module_ids g)).
  set (anodes := map (fun p => if first_anode g (io_group p) (io_channel p)
                               then 0 else 1) data_packets).
  set (start_t := timestamp (nth (Z.to_nat (nth (Z.to_nat id) ev 0))
                                 (packets d) no_packet)).
  assert (Hformula : adc_histogram id d (KnownGeometry g)
            = match active with
              | [] => Ok no_update
              | _ :: _ =>
                  Ok (value (map (histogram_row data_packets anodes start_t) active))
              end).
  { unfold adc_histogram. rewrite G. cbn [bind unpack fst].
    rewrite (getitem_inside _ 0) by lia. cbn [bind].
    rewrite (getitem_inside _ 0) by lia. cbn [bind].
    rewrite (getitem_inside _ no_packet) by lia. cbn [bind].
    rewrite slice_raw_range by lia. rewrite select_filter.
    fold data_packets. fold anodes. fold start_t.
    assert (E : filter (fun module_id =>
                  negb (len (np.select
                               (map (fun p => module_of p =? module_id) data_packets)
                               data_packets) =? 0)) (module_ids g) = active).
    { unfold active. apply filter_ext. intros m.
      now rewrite select_filter. }
    rewrite E. reflexivity. }
  assert (Hactive : forall m, In m active <->
            In m (module_ids g)
            /\ (0 < length (filter (fun p => (module_of p =? m)%Z) data_packets))%nat).
  { intros m. unfold active. rewrite filter_In.
    split; intros [H1 H2]; (split; [exact H1|]).
    - apply negb_true_iff, Z.eqb_neq in H2. lia.
    - apply negb_true_iff, Z.eqb_neq. lia. }
  split; [|split].
  - rewrite Hformula. destruct active; eauto.
  - rewrite Hformula. split.
    + intros H p Hp Hm. destruct active as [|a l]; [|discriminate].
      apply (Hactive (module_of p)). split; [exact Hm|].
      assert (In p (filter (fun q => (module_of q =? module_of p)%Z) data_packets))
        as Hf by (apply filter_In; split; [exact Hp|apply Z.eqb_refl]).
      destruct (filter _ data_packets); [destruct Hf|simpl; lia].
    + intros H. destruct active as [|a l]; [reflexivity|exfalso].
      assert (Hin : In a (a :: l)) by now left.
      apply Hactive in Hin. destruct Hin as [H1 H2].
      destruct (filter (fun p => (module_of p =? a)%Z) data_packets) as [|p f] eqn:Ef;
        [simpl in H2; lia|].
      assert (Hp : In p (filter (fun p => (module_of p =? a)%Z) data_packets))
        by (rewrite Ef; now left).
      apply filter_In in Hp. destruct Hp as [Hp Hm]. apply Z.eqb_eq in Hm.
      apply (H p Hp). now rewrite Hm.
  - intros rows m h1 h2 Hr Hin. rewrite Hformula in Hr.
    destruct active as [|a l]; [discriminate|].
    injection Hr as <-.
    change (In (m, h1, h2)
               (map (histogram_row data_packets anodes start_t) (a :: l))) in Hin.
    apply in_map_iff in Hin. destruct Hin as [m' [Hrow Hm']].
    unfold histogram_row in Hrow. injection Hrow as -> <- <-.
    apply Hactive in Hm'. destruct Hm' as [H1 H2].
    split; [exact H1|].
    match goal with |- ?P /\ _ => assert (Hsum : P) end.
    { rewrite !length_map. unfold anodes. rewrite !map_map.
      rewrite !select_mask_and_length.
      rewrite <- (filter_split_length
                    (fun p => first_anode g (io_group p) (io_channel p))
                    (fun p => (module_of p =? m)%Z) data_packets).
      f_equal; f_equal; apply filter_ext; intros p;
        destruct (first_anode g (io_group p) (io_channel p)); reflexivity. }
    split; [exact Hsum|]. rewrite Hsum. exact H2.
Qed.

Lemma adc_histogram_rows_witness :
  get_event_dividers cool_log = Ok (Some ([0; 2; 4; 6], []))
  /\ 0 <= 1 < len [0; 2; 4; 6] - 1
  /\ adc_histogram 1 cool_log (KnownGeometry two_module_geometry)
     = Ok (value [(0, [1], [])])
  /\ exists r,
       adc_histogram 1 cool_log (KnownGeometry two_module_geometry) = Ok r.
Proof.
  assert (L : 0 <= 1 < len [0; 2; 4; 6] - 1) by (unfold len; simpl; lia).
  split; [reflexivity|]. split; [exact L|]. split; [reflexivity|].
  exact (proj1 (@adc_histogram_rows cool_log [0; 2; 4; 6] [] 1
                  two_module_geometry eq_refl L)).
Defined.

Lemma light_ranges_partition_witness :
  light_trig (gap_log 201) = Some [lig 100; lig 301]
  /\ get_event_dividers (gap_log 201) = Ok (Some ([0; 2; 4], [0; 1; 2]))
  /\ light_range [0; 1; 2] 1 = Ok [1]
  /\ forall (i : nat) (x : Z),
       covers [0; 1; 2] i x -> 0 <= x < len [lig 100; lig 301].
Proof.
  split; [reflexivity|]. split; [reflexivity|]. split; [reflexivity|].
  exact (proj1 (proj2 (@light_ranges_partition (gap_log 201) [lig 100; lig 301]
                         [0; 2; 4] [0; 1; 2] eq_refl eq_refl))).
Defined.

(** ** The cache of [get_event_dividers] *)

Lemma cache_get_None (path : String.string) (c : cache) :
  cache_get path c = None <-> ~ In path (map fst c).
Proof.
  induction c as [|[k v] c IH]; cbn [cache_get map fst In]; [tauto|].
  destruct (String.eqb k path) eqn:E.
  - apply String.eqb_eq in E. split; [discriminate|]. intros H. tauto.
  - apply String.eqb_neq in E. rewrite IH. tauto.
Qed.

Lemma cache_drop_keys (path k : String.string) (c : cache) :
  In k (map fst (cache_drop path c)) <-> In k (map fst c) /\ k <> path.
Proof.
  unfold cache_drop. rewrite !in_map_iff. split.
  - intros [[k' v] [<- H]]. apply filter_In in H. destruct H as [H1 H2].
    apply negb_true_iff, String.eqb_neq in H2. cbn [fst] in *.
    split; [|exact H2]. exists (k', v). auto.
  - intros [[[k' v] [<- H]] Hne]. exists (k', v). split; [reflexivity|].
    apply filter_In. split; [exact H|].
    apply negb_true_iff, String.eqb_neq. exact Hne.
Qed.

Lemma cache_drop_NoDup (path : String.string) (c : cache) :
  NoDup (map fst c) -> NoDup (map fst (cache_drop path c)).
Proof.
  unfold cache_drop.
  induction c as [|[k v] c IH]; cbn [map fst filter]; [trivial|].
  intros H. inversion H as [|? ? Hk Hc]; subst.
  destruct (negb (String.eqb k path)); [|now apply IH].
  cbn [map fst]. constructor; [|now apply IH].
  intros Hin. apply Hk. fold (cache_drop path c) in Hin.
  now apply cache_drop_keys in Hin.
Qed.

Lemma cache_drop_shorter (path : String.string) (c : cache) :
  In path (map fst c) -> (length (cache_drop path c) < length c)%nat.
Proof.
  unfold cache_drop.
  induction c as [|[k v] c IH]; cbn [map fst In filter length]; [tauto|].
  pose proof (filter_length_le (fun kv => negb (String.eqb (fst kv) path)) c) as L.
  destruct (String.eqb k path) eqn:E; cbn [negb].
  - intros _. lia.
  - apply String.eqb_neq in E. intros [H|H]; [congruence|].
    specialize (IH H). cbn [length]. lia.
Qed.

Lemma removelast_keys_incl (c : cache) (k : String.string) :
  In k (map fst (removelast c)) -> In k (map fst c).
Proof.
  intros Hin. destruct c as [|kv c]; [exact Hin|].
  apply in_map_iff in Hin. destruct Hin as [e [E He]].
  apply in_map_iff. exists e. split; [exact E|].
  rewrite (app_removelast_last kv (l := kv :: c)) by discriminate.
  apply in_or_app. now left.
Qed.

Lemma removelast_keys_NoDup (c : cache) :
  NoDup (map fst c) -> NoDup (map fst (removelast c)).
Proof.
  induction c as [|kv c IH]; [trivial|].
  destruct c as [|kv' c]; [intros _; constructor|].
  intros H. inversion H as [|? ? Hk Hc]; subst.
  change (NoDup (fst kv :: map fst (removelast (kv' :: c)))).
  constructor; [|now apply IH].
  intros Hin. apply Hk. exact (removelast_keys_incl (kv' :: c) _ Hin).
Qed.

(** X16.  The cache keeps at most 64 entries and at most one entry per
    path, whatever is asked of it. *)
Theorem cache_stays_bounded :
  forall (files : String.string -> outcome datalog) (c : cache)
         (path : String.string),
    cache_ok c -> cache_ok (snd (get_event_dividers_cached files c path)).
Proof.
  intros files c path [Hn Hl]. unfold get_event_dividers_cached, cache_ok.
  destruct (cache_get path c) as [v|] eqn:E.
  - cbn [snd map fst length].
    assert (Hin : In path (map fst c)).
    { destruct (in_dec String.string_dec path (map fst c)) as [H|H]; [exact H|].
      apply cache_get_None in H. congruence. }
    split.
    + constructor; [|now apply cache_drop_NoDup].
      intros H. apply cache_drop_keys in H. tauto.
    + pose proof (cache_drop_shorter path c Hin). lia.
  - apply cache_get_None in E.
    destruct (d <- files path ;; get_event_dividers d) as [v|e];
      cbn [snd]; [|split; assumption].
    destruct (length c <? maxsize)%nat eqn:F; cbn [map fst length].
    + apply Nat.ltb_lt in F. split; [now constructor|lia].
    + split.
      * constructor; [|now apply removelast_keys_NoDup].
        intros H. apply E. now apply removelast_keys_incl.
      * apply Nat.ltb_ge in F. unfold maxsize in *.
        rewrite removelast_firstn_len, length_firstn. lia.
Qed.

Lemma cache_stays_bounded_witness :
  cache_ok [] /\
  cache_ok (snd (get_event_dividers_cached (fun _ => Ok scenario_log) [] path_a)).
Proof.
  assert (H : cache_ok []) by (split; [constructor|unfold maxsize; simpl; lia]).
  split; [exact H|].
  apply (@cache_stays_bounded (fun _ => Ok scenario_log) [] path_a H).
Defined.

(** ** An event id outside the table, seen by the two plots *)

Lemma getitem_pair_outside (ev : list Z) (event_id : Z) (B : Type)
    (k : Z -> Z -> outcome B) :
  len ev - 1 <= event_id \/ event_id < - len ev ->
  (first <- np.getitem ev event_id ;;
   stop <- np.getitem ev (event_id + 1) ;;
   k first stop) = Raise IndexError.
Proof.
  pose proof (len_nonneg ev) as L. intros [H|H].
  - destruct (Z_lt_le_dec event_id (len ev)) as [Hlt|Hge].
    + destruct (Z_lt_le_dec event_id 0) as [Hn|Hp].
      * rewrite getitem_before by lia. reflexivity.
      * rewrite (getitem_inside _ 0) by lia. cbn [bind].
        rewrite getitem_beyond by lia. reflexivity.
    + rewrite getitem_beyond by lia. reflexivity.
  - rewrite getitem_before by lia. reflexivity.
Qed.

(** X19.  The event id is an input of both [update_output] and
    [adc_histogram].  For an id of [len - 1] or more (or below [-len])
    the first turns the [IndexError] into its alert, while the second,
    which has no [try], raises it as soon as a geometry is selected;
    with no geometry selected it returns [no_update]. *)
Theorem out_of_range_id_in_both_plots :
  forall (d : datalog) (ev lv : list Z) (event_id : Z),
    get_event_dividers d = Ok (Some (ev, lv)) ->
    len ev - 1 <= event_id \/ event_id < - len ev ->
    update_output event_id d true = Ok AlertOnly
    /\ adc_histogram event_id d NoGeometry = Ok no_update
    /\ adc_histogram event_id d UnknownGeometry = Raise IndexError
    /\ forall g : geometry,
         adc_histogram event_id d (KnownGeometry g) = Raise IndexError.
Proof.
  intros d ev lv id G H. split; [|split; [|split]].
  - unfold update_output. rewrite G. cbn [bind unpack fst negb].
    now rewrite draw_event_outside.
  - unfold adc_histogram. now rewrite G.
  - unfold adc_histogram. rewrite G. cbn [bind unpack fst].
    now apply getitem_pair_outside.
  - intros g. unfold adc_histogram. rewrite G. cbn [bind unpack fst].
    now apply getitem_pair_outside.
Qed.

Lemma out_of_range_id_in_both_plots_witness :
  get_event_dividers cool_log = Ok (Some ([0; 2; 4; 6], []))
  /\ (len [0; 2; 4; 6] - 1 <= 3 \/ 3 < - len [0; 2; 4; 6])
  /\ update_output 3 cool_log true = Ok AlertOnly
  /\ adc_histogram 3 cool_log (KnownGeometry two_module_geometry)
     = Raise IndexError.
Proof.
  assert (H : len [0; 2; 4; 6] - 1 <= 3 \/ 3 < - len [0; 2; 4; 6])
    by (left; unfold len; simpl; lia).
  split; [reflexivity|]. split; [exact H|].
  destruct (@out_of_range_id_in_both_plots cool_log [0; 2; 4; 6] [] 3 eq_refl H)
    as [H1 [_ [_ H2]]].
  split; [exact H1|apply H2].
Defined.
